(** * The injector package of klmitch/nelson, embedded in Rocq

    The Go package [injector] is a registry of values indexed by their
    [reflect.Type].  Values are added by hand ([Add], [AddInterface]) or are
    built on demand by vivifiers ([AddVivifier], [Get]); [CallMethod] calls a
    function after fetching one value per parameter type.

    The embedding follows the Go source function by function.  The pointer
    receiver [*Injector] becomes explicit state passing, a Go panic becomes an
    outcome of its own, and everything that lives outside the package (the
    [reflect] type information, the bodies of the vivifiers and of the called
    functions) is gathered in the class [Runtime]. *)

From stdpp Require Import base numbers option list strings gmap.

Local Open Scope string_scope.
Local Open Scope list_scope.

(** ** Values of package reflect *)

(** A [reflect.Type] is a handle on a runtime type descriptor: two handles are
    equal exactly when they denote the same type.  A handle is written as the
    name of its type. *)
Abbreviation rtype := string (only parsing).

(** [reflect.Kind]. *)
Inductive kind : Set :=
| KInvalid | KBool | KInt | KInt8 | KInt16 | KInt32 | KInt64
| KUint | KUint8 | KUint16 | KUint32 | KUint64 | KUintptr
| KFloat32 | KFloat64 | KComplex64 | KComplex128
| KArray | KChan | KFunc | KInterface | KMap | KPtr | KSlice
| KString | KStruct | KUnsafePointer.

#[global] Instance kind_eq_dec : EqDecision kind.
Proof. solve_decision. Defined.

(** What a value holds, as far as the injector can tell values apart. *)
Inductive data : Set :=
| DInt (n : Z)
| DString (s : string)
| DNilPointer
| DFunc (name : string)
| DType (t : rtype)
| DOpaque (id : string).

(** A [reflect.Value]: the zero Value [reflect.Value{}], for which [IsValid]
    is false, or a value together with its type. *)
Inductive Value : Set :=
| ZeroValue
| Val (typ : rtype) (d : data).

Definition IsValid (v : Value) : bool :=
  match v with ZeroValue => false | Val _ _ => true end.

(** A Go [interface{}] argument.  The injector tells four cases apart: the nil
    interface, a boxed [reflect.Value], a boxed [reflect.Type], and any other
    value with its dynamic type. *)
Inductive iface : Set :=
| NilIface
| OfValue (v : Value)
| OfType (t : rtype)
| Dyn (typ : rtype) (d : data).

(** The types of the boxes themselves. *)
Definition valueType : rtype := "reflect.Value".
Definition rtypeType : rtype := "*reflect.rtype".

(** [reflect.TypeOf(obj)]; [None] is the nil [reflect.Type]. *)
Definition TypeOf (obj : iface) : option rtype :=
  match obj with
  | NilIface => None
  | OfValue _ => Some valueType
  | OfType _ => Some rtypeType
  | Dyn t _ => Some t
  end.

(** The idiom that opens [add], [Add] and [Call]:
<<
    val, ok := obj.(reflect.Value)
    if !ok {
        val = reflect.ValueOf(obj)
    }
>>
    [reflect.ValueOf(nil)] is the zero Value. *)
Definition reflected (obj : iface) : Value :=
  match obj with
  | OfValue v => v
  | NilIface => ZeroValue
  | OfType t => Val rtypeType (DType t)
  | Dyn t d => Val t d
  end.

(** [typ, ok := obj.(reflect.Type)]. *)
Definition asType (obj : iface) : option rtype :=
  match obj with OfType t => Some t | _ => None end.

(** ** Errors *)

(** [type Error struct { Message string }]. *)
Record Error : Set := { Message : string }.

#[global] Instance Error_eq_dec : EqDecision Error.
Proof. solve_decision. Defined.

(** The operands of a [fmt.Errorf] call other than the wrapped error. *)
Inductive operand : Set :=
| OpValue (v : Value)     (* %#v of a reflect.Value *)
| OpType (t : rtype)      (* %s of typ.String() *)
| OpQuoted (s : string).  (* %q of a string *)

(** A non-nil Go [error].  [Errorf format ops w] is the result of
    [fmt.Errorf(format, ...)] whose [%w] operand is [w] and whose other
    operands are [ops], in order. *)
Inductive error : Set :=
| InjectorError (e : Error)
| Errorf (format : string) (ops : list operand) (w : error)
| OtherError (msg : string).

Coercion InjectorError : Error >-> error.

(** [errors.Is(err, target)] for a target of type [Error]. *)
Fixpoint Is (err : error) (target : Error) : bool :=
  match err with
  | InjectorError e => bool_decide (e = target)
  | Errorf _ _ w => Is w target
  | OtherError _ => false
  end.

(** [IsInjectorError]: [errors.As] finds an [Error] in the chain. *)
Fixpoint IsInjectorError (e : error) : bool :=
  match e with
  | InjectorError _ => true
  | Errorf _ _ w => IsInjectorError w
  | OtherError _ => false
  end.

(** Standard errors that may occur within the package. *)
Definition ErrNil : Error := {| Message := "cannot inject nil" |}.
Definition ErrDuplicate : Error := {| Message := "object of type already available" |}.
Definition ErrBadInterface : Error := {| Message := "bad interface type" |}.
Definition ErrBadType : Error := {| Message := "cannot be assigned to type" |}.
Definition ErrNoMethod : Error := {| Message := "no such method" |}.
Definition ErrBadMethod : Error := {| Message := "method is not a function" |}.
Definition ErrMissingValue : Error := {| Message := "injector missing value for type" |}.

(** [errType] is the type of the [error] interface. *)
Definition errType : rtype := "error".

(** ** The Injector *)

(** A [Vivifier] is an object with a method [Vivify]; the registry stores a
    reference to it, here its name. *)
Abbreviation vivifier := string (only parsing).

(** [type Injector struct].  A Go map is [nil] or a map, and the code and its
    tests tell the two apart, so each map field is an option.  [Fallback] is
    an interface and may be nil. *)
Record Injector : Type := {
  Objects : option (gmap rtype Value);
  Vivifiers : option (gmap rtype vivifier);
  Fallback : option vivifier
}.

(** [&Injector{}]. *)
Definition emptyInjector : Injector :=
  {| Objects := None; Vivifiers := None; Fallback := None |}.

(** ** Outcomes *)

(** A Go call returns or panics. *)
Inductive outcome (A : Type) : Type :=
| Done (a : A)
| Panicked (msg : string).
Arguments Done {A} a.
Arguments Panicked {A} msg.

(** One result of [reflect.Value.Call] as [result[j].Interface()] shows it:
    nil when the function returned a nil interface, an error when the value
    it holds implements [error], any other value otherwise. *)
Inductive retval : Set :=
| RetNil
| RetError (e : error)
| RetOther (v : Value).

(** ** What the package is given *)

(** The type information of package reflect, and the code the injector calls
    back into.  [Vivify] reads the Injector and must not modify it, as the
    interface's documentation demands, so it returns no Injector; whatever
    else a vivifier or a called function changes is the [World]. *)
Class Runtime : Type := {
  (* reflect.Type *)
  Kind : rtype → kind;
  Elem : rtype → rtype;
  AssignableTo : rtype → rtype → bool;
  IsVariadic : rtype → bool;
  params : rtype → list rtype;
  results : rtype → list rtype;
  (* identical types are assignable *)
  AssignableTo_refl : ∀ t, AssignableTo t t = true;
  (* reflect.Value *)
  MethodByName : Value → string → Value;
  (* the program around the injector *)
  World : Type;
  Vivify : vivifier → Injector → rtype → World →
           outcome (iface * option error) * World;
  Invoke : Value → list Value → World → outcome (list retval) * World
}.

(** What happened outside the registry. *)
Inductive event : Type :=
| Vivified (viv : vivifier) (typ : rtype)
| Invoked (meth : Value) (values : list Value).

Definition isInvoked (e : event) : bool :=
  match e with Invoked _ _ => true | Vivified _ _ => false end.


Section injector.
Context {rt : Runtime}.

Definition NumIn (t : rtype) : nat := length (params t).
Definition NumOut (t : rtype) : nat := length (results t).
Definition Out (t : rtype) (j : nat) : rtype := results t !!! j.

(** The Injector behind the pointer, the world, and the calls made so far,
    oldest first. *)
Record state : Type := {
  inj : Injector;
  world : World;
  trace : list event
}.

(** ** A monad of state and panics *)

Definition M (A : Type) : Type := state → outcome A * state.

#[global] Instance M_ret : MRet M := λ A a s, (Done a, s).

#[global] Instance M_bind : MBind M := λ A B f m s,
  match m s with
  | (Done a, s') => f a s'
  | (Panicked msg, s') => (Panicked msg, s')
  end.

Definition panic {A} (msg : string) : M A := λ s, (Panicked msg, s).

Definition getInjector : M Injector := λ s, (Done (inj s), s).

Definition setObjects (m : gmap rtype Value) : M unit := λ s,
  (Done (),
   {| inj := {| Objects := Some m; Vivifiers := Vivifiers (inj s);
                Fallback := Fallback (inj s) |};
      world := world s; trace := trace s |}).

Definition setVivifiers (m : gmap rtype vivifier) : M unit := λ s,
  (Done (),
   {| inj := {| Objects := Objects (inj s); Vivifiers := Some m;
                Fallback := Fallback (inj s) |};
      world := world s; trace := trace s |}).

(** [viv.Vivify(i, typ)]. *)
Definition vivify (viv : vivifier) (typ : rtype) : M (iface * option error) :=
  λ s,
  let '(r, w) := Vivify viv (inj s) typ (world s) in
  (r, {| inj := inj s; world := w; trace := trace s ++ [Vivified viv typ] |}).

(** [meth.Call(values)]. *)
Definition call (meth : Value) (values : list Value) : M (list retval) :=
  λ s,
  let '(r, w) := Invoke meth values (world s) in
  (r, {| inj := inj s; world := w; trace := trace s ++ [Invoked meth values] |}).

(** [val.Type()] panics on the zero Value. *)
Definition Type_ (val : Value) : M rtype :=
  match val with
  | ZeroValue => panic "reflect: call of reflect.Value.Type on zero Value"
  | Val t _ => mret t
  end.

(** [typ.Kind()] on the result of [reflect.TypeOf]: a nil [reflect.Type] has
    no method to call. *)
Definition Kind_ (typ : option rtype) : M kind :=
  match typ with
  | None => panic "invalid memory address or nil pointer dereference"
  | Some t => mret (Kind t)
  end.

(** [x.(error)] on [result[0].Interface()]. *)
Definition assertError (r : retval) : M (option error) :=
  match r with
  | RetNil => panic "interface conversion: interface is nil, not error"
  | RetError e => mret (Some e)
  | RetOther _ => panic "interface conversion: missing method Error"
  end.

(** ** The package's functions *)

(** [i.Objects[typ]] behind [i.Objects != nil]. *)
Definition cached (i : Injector) (typ : rtype) : option Value :=
  match Objects i with
  | Some m => m !! typ
  | None => None
  end.

(** [i.Vivifiers[typ]] behind [i.Vivifiers != nil]. *)
Definition specific (i : Injector) (typ : rtype) : option vivifier :=
  match Vivifiers i with
  | Some m => m !! typ
  | None => None
  end.

(** [func (i *Injector) add(typ reflect.Type, obj interface{})
    (reflect.Value, error)]. *)
Definition add (typ : rtype) (obj : iface) : M (Value * option error) :=
  (* Reflect the value *)
  let val := reflected obj in
  (* Make sure it's assignable *)
  vtyp ← Type_ val;
  if negb (AssignableTo vtyp typ) then
    mret (ZeroValue, Some (Errorf "%#v %w %s" [OpValue val; OpType typ] ErrBadType))
  else
    (* Add object to the injector *)
    i ← getInjector;
    match Objects i with
    | None => setObjects {[ typ := val ]};; mret (val, None)
    | Some m =>
        match m !! typ with
        | Some _ =>
            mret (ZeroValue, Some (Errorf "type %s: %w" [OpType typ] ErrDuplicate))
        | None => setObjects (<[ typ := val ]> m);; mret (val, None)
        end
    end.

(** [func (i *Injector) Add(obj interface{}) error]. *)
Definition Add (obj : iface) : M (option error) :=
  match obj with
  | NilIface => mret (Some (ErrNil : error))
  | _ =>
      (* Induct the object *)
      let val := reflected obj in
      (* Add to the Injector *)
      vtyp ← Type_ val;
      '(_, err) ← add vtyp (OfValue val);
      mret err
  end.

(** [func (i *Injector) AddInterface(iface interface{}, obj interface{})
    error]. *)
Definition AddInterface (ifc : iface) (obj : iface) : M (option error) :=
  match obj with
  | NilIface => mret (Some (ErrNil : error))
  | _ =>
      (* Determine the type *)
      let finish (typ : rtype) : M (option error) :=
        if negb (bool_decide (Kind typ = KInterface)) then
          mret (Some (ErrBadInterface : error))
        else
          (* Add to the Injector *)
          '(_, err) ← add typ obj;
          mret err in
      match asType ifc with
      | Some typ => finish typ
      | None =>
          k ← Kind_ (TypeOf ifc);
          if negb (bool_decide (k = KPtr)) then
            mret (Some (ErrBadInterface : error))
          else
            finish (Elem (default "" (TypeOf ifc)))
      end
  end.

(** The type under which [AddVivifier] files a vivifier. *)
Definition vivifierType (obj : iface) : M rtype :=
  match asType obj with
  | Some typ => mret typ
  | None =>
      k ← Kind_ (TypeOf obj);
      let typ := default "" (TypeOf obj) in
      if bool_decide (k = KPtr) then
        let tmp := Elem typ in
        if bool_decide (Kind tmp = KInterface) then mret tmp else mret typ
      else mret typ
  end.

(** [func (i *Injector) AddVivifier(obj interface{}, viv Vivifier) error]. *)
Definition AddVivifier (obj : iface) (viv : option vivifier) : M (option error) :=
  (* Make sure we have a vivifier *)
  match viv with
  | None => mret (Some (ErrNil : error))
  | Some viv =>
      (* Determine the type *)
      typ ← vivifierType obj;
      (* Add the vivifier *)
      i ← getInjector;
      match Vivifiers i with
      | None => setVivifiers {[ typ := viv ]};; mret None
      | Some m =>
          match m !! typ with
          | Some _ =>
              mret (Some (Errorf "type %s: %w" [OpType typ] ErrDuplicate))
          | None => setVivifiers (<[ typ := viv ]> m);; mret None
          end
      end
  end.

(** The two vivifier branches of [Get] have the same body. *)
Definition vivifyAndAdd (viv : vivifier) (typ : rtype) : M (Value * option error) :=
  '(obj, err) ← vivify viv typ;
  match err with
  | Some e => mret (ZeroValue, Some e)
  | None => add typ obj (* Add to the Injector *)
  end.

(** [func (i *Injector) Get(typ reflect.Type) (reflect.Value, error)]. *)
Definition Get (typ : rtype) : M (Value * option error) :=
  i ← getInjector;
  (* First, look in Objects *)
  match cached i typ with
  | Some val => mret (val, None)
  | None =>
      (* OK, maybe we can vivify it? *)
      match specific i typ with
      | Some viv => vivifyAndAdd viv typ
      | None =>
          (* OK, try the fallback *)
          match Fallback i with
          | Some viv => vivifyAndAdd viv typ
          | None =>
              mret (ZeroValue, Some (Errorf "%w %s" [OpType typ] ErrMissingValue))
          end
      end
  end.

(** The loop of [CallMethod]:
<<
    for j := 0; j < mTyp.NumIn(); j++ {
        val, err := i.Get(mTyp.In(j))
        if err != nil { return err }
        values = append(values, val)
    }
>>
    over the parameter types still to do; [inr err] is the early return. *)
Fixpoint inputs (typs : list rtype) (values : list Value) : M (list Value + error) :=
  match typs with
  | [] => mret (inl values)
  | typ :: typs' =>
      '(val, err) ← Get typ;
      match err with
      | Some e => mret (inr e)
      | None => inputs typs' (values ++ [val])
      end
  end.

(** The signature test of [CallMethod]. *)
Definition badSignature (mTyp : rtype) : bool :=
  IsVariadic mTyp || bool_decide (1 < NumOut mTyp)
  || (bool_decide (NumOut mTyp = 1) && negb (AssignableTo (Out mTyp 0) errType)).

(** [func (i *Injector) CallMethod(meth reflect.Value) error]. *)
Definition CallMethod (meth : Value) : M (option error) :=
  (* Make sure we have a method to call *)
  match meth with
  | ZeroValue => mret (Some (ErrNoMethod : error))
  | Val mTyp _ =>
      if negb (bool_decide (Kind mTyp = KFunc)) then
        mret (Some (ErrBadMethod : error))
      (* Get the method type information *)
      else if badSignature mTyp then
        mret (Some (ErrBadMethod : error))
      else
        (* Put together the list of input values *)
        r ← inputs (params mTyp) [];
        match r with
        | inr err => mret (Some err)
        | inl values =>
            (* Call the method *)
            result ← call meth values;
            match result with
            | r0 :: _ => assertError r0
            | [] => mret None
            end
        end
  end.

(** [func (i *Injector) Call(obj interface{}, method string) error]. *)
Definition Call (obj : iface) (method : string) : M (option error) :=
  match obj with
  | NilIface => mret (Some (Errorf "%w %q" [OpQuoted method] ErrNoMethod))
  | _ =>
      match reflected obj with
      | ZeroValue => panic "reflect: call of reflect.Value.MethodByName on zero Value"
      | val =>
          (* Look up the method *)
          let meth := MethodByName val method in
          if negb (IsValid meth) then
            mret (Some (Errorf "%w %q" [OpQuoted method] ErrNoMethod))
          else CallMethod meth
      end
  end.

(** ** Words for the statements below *)

(** The vivifier [Get] turns to for a type without a cached value: the one
    registered for the type, else the fallback. *)
Definition selected (i : Injector) (typ : rtype) : option vivifier :=
  match specific i typ with
  | Some viv => Some viv
  | None => Fallback i
  end.

(** The state once [i.Objects[typ] = val] has run. *)
Definition store (typ : rtype) (val : Value) (s : state) : state :=
  {| inj := {| Objects := Some (<[ typ := val ]> (default ∅ (Objects (inj s))));
               Vivifiers := Vivifiers (inj s);
               Fallback := Fallback (inj s) |};
     world := world s; trace := trace s |}.

(** The state once a vivifier or a method has returned. *)
Definition after (e : event) (w : World) (s : state) : state :=
  {| inj := inj s; world := w; trace := trace s ++ [e] |}.

(** The state once [i.Vivifiers[typ] = viv] has run. *)
Definition storeVivifier (typ : rtype) (viv : vivifier) (s : state) : state :=
  {| inj := {| Objects := Objects (inj s);
               Vivifiers := Some (<[ typ := viv ]> (default ∅ (Vivifiers (inj s))));
               Fallback := Fallback (inj s) |};
     world := world s; trace := trace s |}.

(** The two ways a caller names a type without a value of it: the
    [reflect.Type] itself, or a pointer to the type, such as the nil pointer
    of the tests, [( *iTrialInterface)(nil)]. *)
Inductive names : iface → rtype → Prop :=
| names_Type T : names (OfType T) T
| names_pointer p d : Kind p = KPtr → names (Dyn p d) (Elem p).

(** A function type [CallMethod] accepts: not variadic, and no result or
    one result assignable to [error]. *)
Definition callable (mTyp : rtype) : Prop :=
  Kind mTyp = KFunc ∧ IsVariadic mTyp = false
  ∧ (results mTyp = [] ∨ ∃ o, results mTyp = [o] ∧ AssignableTo o errType = true).

(** Where [AddVivifier] files a vivifier: under the [reflect.Type] it is
    given, under the type of the value it is given, or, when that type is a
    pointer to an interface, under the interface. *)
Inductive files : iface → rtype → Prop :=
| files_Type t : files (OfType t) t
| files_value t d :
    Kind t ≠ KPtr ∨ Kind (Elem t) ≠ KInterface → files (Dyn t d) t
| files_pointer p d :
    Kind p = KPtr → Kind (Elem p) = KInterface → files (Dyn p d) (Elem p).

(** A value that may sit in the slot of [typ]: one whose type is assignable
    to [typ]. *)
Definition fits (typ : rtype) (val : Value) : bool :=
  match val with
  | ZeroValue => false
  | Val t _ => AssignableTo t typ
  end.

(** Every slot holds a value of a type assignable to the type of the
    slot. *)
Definition wellTyped (i : Injector) : Prop :=
  ∀ typ val, cached i typ = Some val → fits typ val = true.

(** The end of [CallMethod]: the call, and what becomes of its results. *)
Definition finish (meth : Value) (values : list Value) : M (option error) :=
  result ← call meth values;
  match result with
  | r0 :: _ => assertError r0
  | [] => mret None
  end.

(** [resolved s typs values s']: one [Get] per type of [typs], in order and
    starting from [s], each returning a value and no error, ends in [s']
    with the values [values]. *)
Inductive resolved : state → list rtype → list Value → state → Prop :=
| resolved_nil s : resolved s [] [] s
| resolved_cons s typ typs val values s1 s2 :
    Get typ s = (Done (val, None), s1) →
    resolved s1 typs values s2 →
    resolved s (typ :: typs) (val :: values) s2.

End injector.

(** ** The types, vivifiers and methods of the package's tests *)

Module tests.

(** What reflect knows of a type. *)
Record typeInfo : Set := {
  tKind : kind;
  tElem : rtype;
  tVariadic : bool;
  tIn : list rtype;
  tOut : list rtype
}.

Definition basic (k : kind) : typeInfo :=
  {| tKind := k; tElem := ""; tVariadic := false; tIn := []; tOut := [] |}.

Definition pointer (elem : rtype) : typeInfo :=
  {| tKind := KPtr; tElem := elem; tVariadic := false; tIn := []; tOut := [] |}.

Definition func (variadic : bool) (ins outs : list rtype) : typeInfo :=
  {| tKind := KFunc; tElem := ""; tVariadic := variadic; tIn := ins; tOut := outs |}.

(** The types the tests use, and [func(int, int)]. *)
Definition types : list (rtype * typeInfo) :=
  [ ("int", basic KInt);
    ("string", basic KString);
    ("[]string", basic KSlice);
    ("error", basic KInterface);
    ("interface {}", basic KInterface);
    ("*errors.errorString", pointer "errors.errorString");
    ("injector.iTrialInterface", basic KInterface);
    ("*injector.iTrialInterface", pointer "injector.iTrialInterface");
    ("injector.trialInterface", basic KInt);
    ("mock.Mock", basic KStruct);
    ("*mock.Mock", pointer "mock.Mock");
    ("reflect.Value", basic KStruct);
    ("*reflect.rtype", pointer "reflect.rtype");
    ("func()", func false [] []);
    ("func() error", func false [] ["error"]);
    ("func(int, string)", func false ["int"; "string"] []);
    ("func(int, ...string)", func true ["int"; "[]string"] []);
    ("func() (interface {}, error)", func false [] ["interface {}"; "error"]);
    ("func() interface {}", func false [] ["interface {}"]);
    ("func(int, int)", func false ["int"; "int"] []);
    ("func(int, string, bool)", func false ["int"; "string"; "bool"] []) ].

Fixpoint lookupType (t : rtype) (l : list (rtype * typeInfo)) : typeInfo :=
  match l with
  | [] => basic KInvalid
  | (name, i) :: l' => if bool_decide (name = t) then i else lookupType t l'
  end.

Definition info (t : rtype) : typeInfo := lookupType t types.

(** The method sets of the tests: which type implements which interface. *)
Definition implements : list (rtype * rtype) :=
  [ ("injector.trialInterface", "injector.iTrialInterface");
    ("*errors.errorString", "error") ].

Definition assignable (v t : rtype) : bool :=
  bool_decide (v = t) || bool_decide (t = "interface {}")
  || bool_decide ((v, t) ∈ implements).

(** [assert.AnError]. *)
Definition AnError : error := OtherError "assert.AnError general error for testing".

(** The vivifiers: mocks with one fixed answer each, and a counter whose
    answer is the number of calls made before, kept in the world. *)
Definition vivifyTest (viv : vivifier) (i : Injector) (typ : rtype) (w : nat)
  : outcome (iface * option error) * nat :=
  if bool_decide (viv = "a string") then (Done (Dyn "string" (DString "a string"), None), w)
  else if bool_decide (viv = "42") then (Done (Dyn "int" (DInt 42), None), w)
  else if bool_decide (viv = "12345") then (Done (Dyn "int" (DInt 12345), None), w)
  else if bool_decide (viv = "AnError") then (Done (NilIface, Some AnError), w)
  else if bool_decide (viv = "nil") then (Done (NilIface, None), w)
  else if bool_decide (viv = "counter") then (Done (Dyn "int" (DInt (Z.of_nat w)), None), S w)
  else (Panicked "mock: unexpected call", w).

(** The methods of [type methods struct], a method returning a nil error,
    and a function of two ints. *)
Definition invokeTest (meth : Value) (values : list Value) (w : nat)
  : outcome (list retval) * nat :=
  match meth with
  | Val _ (DFunc name) =>
      if bool_decide (name = "Niladic") then (Done [], S w)
      else if bool_decide (name = "NiladicErr") then (Done [RetError AnError], S w)
      else if bool_decide (name = "NiladicNil") then (Done [RetNil], S w)
      else if bool_decide (name = "Basic") then (Done [], S w)
      else if bool_decide (name = "Pair") then (Done [], S w)
      else if bool_decide (name = "Triple") then (Done [], S w)
      else (Panicked "mock: unexpected call", w)
  | _ => (Panicked "reflect: call of reflect.Value.Call on non-function", w)
  end.

Definition methodTest (val : Value) (method : string) : Value :=
  if bool_decide (method = "Niladic") then Val "func()" (DFunc "Niladic")
  else if bool_decide (method = "NiladicErr") then Val "func() error" (DFunc "NiladicErr")
  else if bool_decide (method = "NiladicNil") then Val "func() error" (DFunc "NiladicNil")
  else if bool_decide (method = "Basic") then Val "func(int, string)" (DFunc "Basic")
  else ZeroValue.

#[local] Instance runtime : Runtime := {|
  Kind t := tKind (info t);
  Elem t := tElem (info t);
  AssignableTo := assignable;
  IsVariadic t := tVariadic (info t);
  params t := tIn (info t);
  results t := tOut (info t);
  AssignableTo_refl t :=
    eq_ind_r (x := true)
             (λ b, b || bool_decide (t = "interface {}")
                     || bool_decide ((t, t) ∈ implements) = true)
             eq_refl (bool_decide_eq_true_2 (t = t) eq_refl);
  MethodByName := methodTest;
  World := nat;
  Vivify := vivifyTest;
  Invoke := invokeTest
|}.

(** A registry as a test writes it down. *)
Definition injector (objs : option (list (rtype * Value)))
    (vivs : option (list (rtype * vivifier))) (fallback : option vivifier) : Injector :=
  {| Objects := list_to_map <$> objs;
     Vivifiers := list_to_map <$> vivs;
     Fallback := fallback |}.

Definition start (i : Injector) : state :=
  {| inj := i; world := 0; trace := [] |}.

(** Methods and registries of the examples. *)
Definition niladicErr : Value := Val "func() error" (DFunc "NiladicErr").
Definition niladicNil : Value := Val "func() error" (DFunc "NiladicNil").
Definition pair : Value := Val "func(int, int)" (DFunc "Pair").
Definition triple : Value := Val "func(int, string, bool)" (DFunc "Triple").

Definition five : Value := Val "int" (DInt 5).
Definition trial (n : Z) : Value := Val "injector.trialInterface" (DInt n).

Definition withInt : state := start (injector (Some [("int", five)]) None None).
Definition withString : state :=
  start (injector (Some [("string", Val "string" (DString "another string"))]) None None).
Definition withTrial : state :=
  start (injector (Some [("injector.iTrialInterface", trial 5)]) None None).
Definition withVivifier (typ : rtype) (viv : vivifier) : state :=
  start (injector None (Some [(typ, viv)]) None).
Definition withBoth : state :=
  start (injector None (Some [("int", "42")]) (Some "counter")).
Definition withFallback (viv : vivifier) : state :=
  start (injector None None (Some viv)).

(** The registry once the vivifier of int has been called and its value
    stored. *)
Definition vivified (viv : vivifier) (n : Z) (w : nat) : state :=
  store "int" (Val "int" (DInt n))
    (after (Vivified viv "int") (w : @World runtime) (withVivifier "int" viv)).

End tests.

(** * Properties *)

Section properties.
Context {rt : Runtime}.
Implicit Types (s : state) (i : Injector) (typ T : rtype) (obj : iface)
  (val : Value) (viv : vivifier) (e : error).

(** ** The monad *)

Lemma bind_done {A B} (m : M A) (f : A → M B) s a s' :
  m s = (Done a, s') → (m ≫= f) s = f a s'.
Proof. intros H. unfold mbind, M_bind. by rewrite H. Qed.

Lemma ret_bind {A B} (a : A) (f : A → M B) s : (mret a ≫= f) s = f a s.
Proof. reflexivity. Qed.

Lemma bind_panicked {A B} (m : M A) (f : A → M B) s msg s' :
  m s = (Panicked msg, s') → (m ≫= f) s = (Panicked msg, s').
Proof. intros H. unfold mbind, M_bind. by rewrite H. Qed.

(** ** Lookups after a store *)

Lemma cached_store typ val s : cached (inj (store typ val s)) typ = Some val.
Proof. unfold cached. simpl. apply lookup_insert_eq. Qed.

Lemma cached_store_ne typ T val s :
  typ ≠ T → cached (inj (store typ val s)) T = cached (inj s) T.
Proof.
  intros Hne. unfold cached. simpl. rewrite lookup_insert_ne by done.
  destruct (Objects (inj s)); [done | apply lookup_empty].
Qed.

(** ** add *)

Lemma add_zero typ obj s :
  reflected obj = ZeroValue →
  add typ obj s = (Panicked "reflect: call of reflect.Value.Type on zero Value", s).
Proof. intros H. unfold add. by rewrite H. Qed.

Lemma add_bad_type typ obj t d s :
  reflected obj = Val t d → AssignableTo t typ = false →
  add typ obj s =
    (Done (ZeroValue,
           Some (Errorf "%#v %w %s" [OpValue (Val t d); OpType typ] ErrBadType)), s).
Proof.
  intros H Hno. unfold add. rewrite H. simpl.
  unfold mbind, M_bind, mret, M_ret. simpl. by rewrite Hno.
Qed.

Lemma add_duplicate typ obj t d s val0 :
  reflected obj = Val t d → AssignableTo t typ = true →
  cached (inj s) typ = Some val0 →
  add typ obj s =
    (Done (ZeroValue, Some (Errorf "type %s: %w" [OpType typ] ErrDuplicate)), s).
Proof.
  intros H Hok Hc. unfold add. rewrite H. simpl.
  unfold mbind, M_bind, mret, M_ret, getInjector. simpl. rewrite Hok. simpl.
  unfold cached in Hc. destruct (Objects (inj s)) as [m|]; [|done].
  by rewrite Hc.
Qed.

Lemma add_fresh typ obj t d s :
  reflected obj = Val t d → AssignableTo t typ = true →
  cached (inj s) typ = None →
  add typ obj s = (Done (Val t d, None), store typ (Val t d) s).
Proof.
  intros H Hok Hc. unfold add. rewrite H. simpl.
  unfold mbind, M_bind, mret, M_ret, getInjector. simpl. rewrite Hok. simpl.
  unfold cached in Hc. unfold store.
  destruct (Objects (inj s)) as [m|] eqn:Hm; simpl.
  - by rewrite Hc.
  - reflexivity.
Qed.

(** [add] never touches the world or the trace, and on anything but success
    it leaves the whole state alone. *)
Lemma add_frame typ obj s :
  ∃ r s', add typ obj s = (r, s') ∧ world s' = world s ∧ trace s' = trace s
    ∧ Vivifiers (inj s') = Vivifiers (inj s) ∧ Fallback (inj s') = Fallback (inj s)
    ∧ ((∀ val, r ≠ Done (val, None)) → s' = s).
Proof.
  destruct (reflected obj) as [|t d] eqn:Hr.
  - rewrite (add_zero _ _ _ Hr). eauto 10.
  - destruct (AssignableTo t typ) eqn:Hok.
    + destruct (cached (inj s) typ) as [val0|] eqn:Hc.
      * rewrite (add_duplicate _ _ _ _ _ _ Hr Hok Hc). eauto 10.
      * rewrite (add_fresh _ _ _ _ _ Hr Hok Hc).
        eexists _, _. split; [done|]. repeat split; try done.
        intros Hne. by destruct (Hne (Val t d)).
    + rewrite (add_bad_type _ _ _ _ _ Hr Hok). eauto 10.
Qed.

(** ** Get *)

Lemma Get_cached typ val s :
  cached (inj s) typ = Some val → Get typ s = (Done (val, None), s).
Proof.
  intros Hc. unfold Get, mbind, M_bind, getInjector. simpl. by rewrite Hc.
Qed.

Lemma Get_selected typ viv s :
  cached (inj s) typ = None → selected (inj s) typ = Some viv →
  Get typ s = vivifyAndAdd viv typ s.
Proof.
  intros Hc Hsel. unfold Get, mbind at 1, M_bind at 1, getInjector. simpl.
  rewrite Hc. unfold selected in Hsel.
  destruct (specific (inj s) typ) as [viv'|].
  - by inversion Hsel.
  - by rewrite Hsel.
Qed.

Lemma Get_missing typ s :
  cached (inj s) typ = None → selected (inj s) typ = None →
  Get typ s =
    (Done (ZeroValue, Some (Errorf "%w %s" [OpType typ] ErrMissingValue)), s).
Proof.
  intros Hc Hsel. unfold Get, mbind, M_bind, getInjector. simpl.
  rewrite Hc. unfold selected in Hsel.
  destruct (specific (inj s) typ) as [viv'|]; [done|]. by rewrite Hsel.
Qed.

Lemma vivifyAndAdd_panicked viv typ s msg w :
  Vivify viv (inj s) typ (world s) = (Panicked msg, w) →
  vivifyAndAdd viv typ s = (Panicked msg, after (Vivified viv typ) w s).
Proof.
  intros Hv. unfold vivifyAndAdd, mbind, M_bind, vivify. by rewrite Hv.
Qed.

Lemma vivifyAndAdd_error viv typ s obj e w :
  Vivify viv (inj s) typ (world s) = (Done (obj, Some e), w) →
  vivifyAndAdd viv typ s = (Done (ZeroValue, Some e), after (Vivified viv typ) w s).
Proof.
  intros Hv. unfold vivifyAndAdd, mbind, M_bind, vivify. by rewrite Hv.
Qed.

Lemma vivifyAndAdd_value viv typ s obj w :
  Vivify viv (inj s) typ (world s) = (Done (obj, None), w) →
  vivifyAndAdd viv typ s = add typ obj (after (Vivified viv typ) w s).
Proof.
  intros Hv. unfold vivifyAndAdd, mbind, M_bind, vivify. by rewrite Hv.
Qed.

(** Whatever the vivifier answers, the call is the one new event. *)
Lemma vivifyAndAdd_trace viv typ s :
  trace (vivifyAndAdd viv typ s).2 = trace s ++ [Vivified viv typ].
Proof.
  destruct (Vivify viv (inj s) typ (world s)) as [[[obj [e|]]|msg] w] eqn:Hv.
  - by rewrite (vivifyAndAdd_error _ _ _ _ _ _ Hv).
  - rewrite (vivifyAndAdd_value _ _ _ _ _ Hv).
    destruct (add_frame typ obj (after (Vivified viv typ) w s))
      as (r & s' & -> & _ & Htr & _). simpl. by rewrite Htr.
  - by rewrite (vivifyAndAdd_panicked _ _ _ _ _ Hv).
Qed.

Lemma Get_trace typ viv s :
  cached (inj s) typ = None → selected (inj s) typ = Some viv →
  trace (Get typ s).2 = trace s ++ [Vivified viv typ].
Proof.
  intros Hc Hsel. rewrite (Get_selected _ _ _ Hc Hsel). apply vivifyAndAdd_trace.
Qed.


(** A vivifier that answers [nil, nil] makes [Get] panic: [add] asks the
    zero Value for its type. *)
Lemma Get_vivified_nil typ viv s w :
  cached (inj s) typ = None → selected (inj s) typ = Some viv →
  Vivify viv (inj s) typ (world s) = (Done (NilIface, None), w) →
  Get typ s =
    (Panicked "reflect: call of reflect.Value.Type on zero Value",
     after (Vivified viv typ) w s).
Proof.
  intros Hc Hsel Hv.
  rewrite (Get_selected _ _ _ Hc Hsel), (vivifyAndAdd_value _ _ _ _ _ Hv).
  by apply add_zero.
Qed.

(** C5: [Get] looks for a cached value, then for the vivifier of the type,
    then for the fallback, and fails with [ErrMissingValue] when there is
    none.  A cached value is returned and the state, trace included, is
    what it was; with no cached value and a vivifier for the type, that
    vivifier is the one call made, whether or not there is a fallback. *)
Theorem Get_resolution_order s T :
  match cached (inj s) T with
  | Some val => Get T s = (Done (val, None), s)
  | None =>
      match specific (inj s) T with
      | Some viv =>
          Get T s = vivifyAndAdd viv T s
          ∧ trace (Get T s).2 = trace s ++ [Vivified viv T]
      | None =>
          match Fallback (inj s) with
          | Some viv =>
              Get T s = vivifyAndAdd viv T s
              ∧ trace (Get T s).2 = trace s ++ [Vivified viv T]
          | None =>
              ∃ e, Get T s = (Done (ZeroValue, Some e), s)
                   ∧ Is e ErrMissingValue = true
          end
      end
  end.
Proof.
  destruct (cached (inj s) T) as [val|] eqn:Hc.
  { by apply Get_cached. }
  destruct (specific (inj s) T) as [viv|] eqn:Hs.
  { assert (selected (inj s) T = Some viv) as Hsel by (unfold selected; by rewrite Hs).
    split; [by apply Get_selected | by apply Get_trace]. }
  destruct (Fallback (inj s)) as [viv|] eqn:Hf.
  { assert (selected (inj s) T = Some viv) as Hsel by (unfold selected; by rewrite Hs).
    split; [by apply Get_selected | by apply Get_trace]. }
  eexists. split.
  - apply Get_missing; [done|]. unfold selected. by rewrite Hs.
  - reflexivity.
Qed.


(** C7: when the vivifier [Get] turns to for [T] returns an error, [Get]
    returns that very error, the Injector is what it was, [T] has no cached
    value, and a second [Get T] calls the vivifier again. *)
Theorem Get_vivifier_error s T viv obj e w :
  cached (inj s) T = None →
  selected (inj s) T = Some viv →
  Vivify viv (inj s) T (world s) = (Done (obj, Some e), w) →
  ∃ s1,
    Get T s = (Done (ZeroValue, Some e), s1)
    ∧ inj s1 = inj s
    ∧ cached (inj s1) T = None
    ∧ trace s1 = trace s ++ [Vivified viv T]
    ∧ trace (Get T s1).2 = trace s1 ++ [Vivified viv T].
Proof.
  intros Hc Hsel Hv. exists (after (Vivified viv T) w s).
  rewrite (Get_selected _ _ _ Hc Hsel), (vivifyAndAdd_error _ _ _ _ _ _ Hv).
  repeat split; try done.
  by apply Get_trace.
Qed.

(** C10: when the vivifier [Get] turns to for [T] returns, with a nil
    error, a value whose type is not assignable to [T], [Get] fails with
    an error that is [ErrBadType] and the Injector is what it was. *)
Theorem Get_vivifier_bad_type s T viv obj w t d :
  cached (inj s) T = None →
  selected (inj s) T = Some viv →
  Vivify viv (inj s) T (world s) = (Done (obj, None), w) →
  reflected obj = Val t d → AssignableTo t T = false →
  ∃ e s1,
    Get T s = (Done (ZeroValue, Some e), s1)
    ∧ Is e ErrBadType = true
    ∧ inj s1 = inj s
    ∧ cached (inj s1) T = None.
Proof.
  intros Hc Hsel Hv Hr Hno.
  rewrite (Get_selected _ _ _ Hc Hsel), (vivifyAndAdd_value _ _ _ _ _ Hv).
  rewrite (add_bad_type _ _ _ _ _ Hr Hno).
  eexists _, _. split; [done|]. repeat split; done.
Qed.

(** ** Add and AddInterface *)

Lemma Add_nil s : Add NilIface s = (Done (Some (ErrNil : error)), s).
Proof. reflexivity. Qed.

Lemma AddInterface_nil ifc s :
  AddInterface ifc NilIface s = (Done (Some (ErrNil : error)), s).
Proof. reflexivity. Qed.

(** [Add] is [add] at the value's own type. *)
Lemma Add_reflected obj t d s :
  reflected obj = Val t d →
  Add obj s = (add t (OfValue (Val t d)) ≫= λ '(_, err), mret err) s.
Proof.
  intros Hr. destruct obj; simplify_eq/=; reflexivity.
Qed.

Lemma Add_duplicate obj t d s val0 :
  reflected obj = Val t d → cached (inj s) t = Some val0 →
  Add obj s = (Done (Some (Errorf "type %s: %w" [OpType t] ErrDuplicate)), s).
Proof.
  intros Hr Hc. rewrite (Add_reflected _ _ _ _ Hr).
  by rewrite (bind_done _ _ _ _ _
    (add_duplicate t (OfValue (Val t d)) t d s val0 eq_refl (AssignableTo_refl t) Hc)).
Qed.

Lemma Add_fresh obj t d s :
  reflected obj = Val t d → cached (inj s) t = None →
  Add obj s = (Done None, store t (Val t d) s).
Proof.
  intros Hr Hc. rewrite (Add_reflected _ _ _ _ Hr).
  by rewrite (bind_done _ _ _ _ _
    (add_fresh t (OfValue (Val t d)) t d s eq_refl (AssignableTo_refl t) Hc)).
Qed.

(** [AddInterface] is [add] at the named type, when that is an interface. *)
Lemma AddInterface_named ifc T obj s :
  names ifc T → Kind T = KInterface → obj ≠ NilIface →
  AddInterface ifc obj s = (add T obj ≫= λ '(_, err), mret err) s.
Proof.
  intros Hn Hk Hobj. unfold AddInterface.
  destruct obj; try done; destruct Hn as [T|p d' Hp]; simpl;
    rewrite ?Hp, ?Hk; reflexivity.
Qed.

Lemma AddInterface_not_interface ifc T obj s :
  names ifc T → Kind T ≠ KInterface → obj ≠ NilIface →
  AddInterface ifc obj s = (Done (Some (ErrBadInterface : error)), s).
Proof.
  intros Hn Hk Hobj. unfold AddInterface.
  destruct obj; try done; destruct Hn as [T|p d' Hp]; simpl;
    rewrite ?Hp; simpl; by rewrite bool_decide_eq_false_2.
Qed.

(** [add] tests the type before it looks for a duplicate: a value that
    does not implement the interface is a [ErrBadType], taken or not. *)
Lemma AddInterface_bad_type ifc T obj t d s :
  names ifc T → Kind T = KInterface →
  reflected obj = Val t d → obj ≠ NilIface → AssignableTo t T = false →
  ∃ e, AddInterface ifc obj s = (Done (Some e), s) ∧ Is e ErrBadType = true.
Proof.
  intros Hn Hk Hr Hobj Hno. rewrite (AddInterface_named _ _ _ _ Hn Hk Hobj).
  erewrite bind_done; [|by apply add_bad_type]. by eexists.
Qed.

(** C9: when the type has a cached value, [Add] of a value of that type,
    and [AddInterface] of a value for that interface type, fail with an
    error that is [ErrDuplicate], and the state is what it was: the same
    Objects, Vivifiers and Fallback. *)
Theorem duplicate_type_rejected s T val0 obj t d :
  cached (inj s) T = Some val0 →
  reflected obj = Val t d →
  (t = T →
   ∃ e, Add obj s = (Done (Some e), s) ∧ Is e ErrDuplicate = true)
  ∧ (∀ ifc, names ifc T → Kind T = KInterface → AssignableTo t T = true →
     ∃ e, AddInterface ifc obj s = (Done (Some e), s) ∧ Is e ErrDuplicate = true).
Proof.
  intros Hc Hr. split.
  - intros ->. rewrite (Add_duplicate _ _ _ _ _ Hr Hc). by eexists.
  - intros ifc Hn Hk Hok.
    assert (obj ≠ NilIface) as Hobj by (intros ->; discriminate).
    rewrite (AddInterface_named _ _ _ _ Hn Hk Hobj).
    erewrite bind_done; [|by eapply add_duplicate]. by eexists.
Qed.

(** ** AddVivifier *)

Lemma specific_storeVivifier typ viv s :
  specific (inj (storeVivifier typ viv s)) typ = Some viv.
Proof. unfold specific. simpl. apply lookup_insert_eq. Qed.

Lemma specific_storeVivifier_ne typ T viv s :
  typ ≠ T → specific (inj (storeVivifier typ viv s)) T = specific (inj s) T.
Proof.
  intros Hne. unfold specific. simpl. rewrite lookup_insert_ne by done.
  destruct (Vivifiers (inj s)); [done | apply lookup_empty].
Qed.

Lemma vivifierType_Type t s : vivifierType (OfType t) s = (Done t, s).
Proof. reflexivity. Qed.

Lemma vivifierType_pointer_to_interface p d s :
  Kind p = KPtr → Kind (Elem p) = KInterface →
  vivifierType (Dyn p d) s = (Done (Elem p), s).
Proof.
  intros Hp Hi. unfold vivifierType. simpl.
  unfold mbind, M_bind, mret, M_ret. simpl. by rewrite Hp, Hi.
Qed.

Lemma AddVivifier_nil obj s :
  AddVivifier obj None s = (Done (Some (ErrNil : error)), s).
Proof. reflexivity. Qed.

Lemma AddVivifier_fresh obj typ viv s :
  vivifierType obj s = (Done typ, s) → specific (inj s) typ = None →
  AddVivifier obj (Some viv) s = (Done None, storeVivifier typ viv s).
Proof.
  intros Ht Hs. unfold AddVivifier.
  erewrite bind_done by exact Ht.
  unfold mbind, M_bind, mret, M_ret, getInjector, storeVivifier. simpl.
  unfold specific in Hs. destruct (Vivifiers (inj s)) as [m|]; simpl.
  - by rewrite Hs.
  - reflexivity.
Qed.

Lemma AddVivifier_duplicate obj typ viv viv0 s :
  vivifierType obj s = (Done typ, s) → specific (inj s) typ = Some viv0 →
  AddVivifier obj (Some viv) s =
    (Done (Some (Errorf "type %s: %w" [OpType typ] ErrDuplicate)), s).
Proof.
  intros Ht Hs. unfold AddVivifier.
  erewrite bind_done by exact Ht.
  unfold mbind, M_bind, mret, M_ret, getInjector. simpl.
  unfold specific in Hs. destruct (Vivifiers (inj s)) as [m|]; [|done].
  by rewrite Hs.
Qed.

(** C4, as the code has it: a pointer to an interface type, passed as a
    value, files the vivifier under the interface type, and [Get] of the
    interface type then calls it when the type has no cached value; a
    [reflect.Type] files the vivifier under that very type and under no
    other, whatever its kind. *)
Theorem AddVivifier_type_token s viv :
  (∀ p d, Kind p = KPtr → Kind (Elem p) = KInterface →
     specific (inj s) (Elem p) = None →
     ∃ s1, AddVivifier (Dyn p d) (Some viv) s = (Done None, s1)
       ∧ specific (inj s1) (Elem p) = Some viv
       ∧ (cached (inj s) (Elem p) = None →
          trace (Get (Elem p) s1).2 = trace s1 ++ [Vivified viv (Elem p)]))
  ∧ (∀ t, specific (inj s) t = None →
     ∃ s1, AddVivifier (OfType t) (Some viv) s = (Done None, s1)
       ∧ specific (inj s1) t = Some viv
       ∧ ∀ T, T ≠ t → specific (inj s1) T = specific (inj s) T).
Proof.
  split.
  - intros p d Hp Hi Hs. exists (storeVivifier (Elem p) viv s).
    split; [|split].
    + apply AddVivifier_fresh; [by apply vivifierType_pointer_to_interface | done].
    + apply specific_storeVivifier.
    + intros Hc. apply Get_trace; [done|].
      unfold selected. by rewrite specific_storeVivifier.
  - intros t Hs. exists (storeVivifier t viv s).
    split; [|split].
    + by apply AddVivifier_fresh.
    + apply specific_storeVivifier.
    + intros T Hne. by apply specific_storeVivifier_ne.
Qed.

(** ** What one Get can do to the state *)

#[local] Ltac shape :=
  eexists _, _; split; [reflexivity|];
  first [ by left
        | right; left; eexists _, _; split; [reflexivity | by intros ?]
        | right; right; by eexists _, _, _ ].

(** [Get] leaves the state alone, or calls one vivifier for the type and
    stores nothing, or calls one vivifier for the type and stores its value
    in the slot of the type, which was empty. *)
Lemma Get_shape T s :
  ∃ r s', Get T s = (r, s')
    ∧ (s' = s
       ∨ (∃ viv w, s' = after (Vivified viv T) w s ∧ ∀ val, r ≠ Done (val, None))
       ∨ (∃ viv w val, r = Done (val, None) ∧ cached (inj s) T = None
            ∧ s' = store T val (after (Vivified viv T) w s))).
Proof.
  destruct (cached (inj s) T) as [val|] eqn:Hc.
  { rewrite (Get_cached _ _ _ Hc). shape. }
  destruct (selected (inj s) T) as [viv|] eqn:Hsel.
  2: { rewrite (Get_missing _ _ Hc Hsel). shape. }
  rewrite (Get_selected _ _ _ Hc Hsel).
  destruct (Vivify viv (inj s) T (world s)) as [[[obj [e|]]|msg] w] eqn:Hv.
  - rewrite (vivifyAndAdd_error _ _ _ _ _ _ Hv). shape.
  - rewrite (vivifyAndAdd_value _ _ _ _ _ Hv).
    destruct (reflected obj) as [|t d] eqn:Hr.
    { rewrite (add_zero _ _ _ Hr). shape. }
    destruct (AssignableTo t T) eqn:Hok.
    + rewrite (add_fresh T obj t d (after (Vivified viv T) w s) Hr Hok Hc).
      shape.
    + rewrite (add_bad_type _ _ _ _ _ Hr Hok). shape.
  - rewrite (vivifyAndAdd_panicked _ _ _ _ _ Hv). shape.
Qed.

(** A failed [Get] has stored nothing. *)
Lemma Get_error_inj T s val e s' :
  Get T s = (Done (val, Some e), s') → inj s' = inj s.
Proof.
  intros HG. destruct (Get_shape T s) as (r & s1 & HG' & Hsh).
  rewrite HG in HG'. simplify_eq.
  destruct Hsh as [->|[(viv & w & -> & _)|(viv & w & val' & ? & _)]]; done.
Qed.

(** The slots of the other types are what they were. *)
Lemma Get_other T U s : U ≠ T → cached (inj (Get T s).2) U = cached (inj s) U.
Proof.
  intros Hne. destruct (Get_shape T s) as (r & s1 & -> & Hsh). simpl.
  destruct Hsh as [->|[(viv & w & -> & _)|(viv & w & val' & _ & _ & ->)]];
    try done.
  by rewrite cached_store_ne.
Qed.

(** A filled slot stays as it is: slots are added, never replaced. *)
Lemma Get_keeps T U s val :
  cached (inj s) U = Some val → cached (inj (Get T s).2) U = Some val.
Proof.
  intros Hc. destruct (decide (U = T)) as [->|Hne].
  - by rewrite (Get_cached _ _ _ Hc).
  - by rewrite Get_other.
Qed.

(** A successful [Get] returns what is in the slot afterwards. *)
Lemma Get_done_cached T s val s' :
  Get T s = (Done (val, None), s') → cached (inj s') T = Some val.
Proof.
  intros HG. destruct (cached (inj s) T) as [val0|] eqn:Hc.
  { rewrite (Get_cached _ _ _ Hc) in HG. by simplify_eq. }
  destruct (selected (inj s) T) as [viv|] eqn:Hsel.
  2: { by rewrite (Get_missing _ _ Hc Hsel) in HG. }
  rewrite (Get_selected _ _ _ Hc Hsel) in HG.
  destruct (Vivify viv (inj s) T (world s)) as [[[obj [e|]]|msg] w] eqn:Hv.
  - by rewrite (vivifyAndAdd_error _ _ _ _ _ _ Hv) in HG.
  - rewrite (vivifyAndAdd_value _ _ _ _ _ Hv) in HG.
    destruct (reflected obj) as [|t d] eqn:Hr.
    { by rewrite (add_zero _ _ _ Hr) in HG. }
    destruct (AssignableTo t T) eqn:Hok.
    + rewrite (add_fresh T obj t d (after (Vivified viv T) w s) Hr Hok Hc) in HG.
      simplify_eq. apply cached_store.
    + by rewrite (add_bad_type _ _ _ _ _ Hr Hok) in HG.
  - by rewrite (vivifyAndAdd_panicked _ _ _ _ _ Hv) in HG.
Qed.

(** The calls one [Get] makes: vivifiers, and for this type only. *)
Lemma Get_events T s :
  ∃ evs, trace (Get T s).2 = trace s ++ evs
    ∧ ∀ ev, ev ∈ evs → ∃ viv, ev = Vivified viv T.
Proof.
  destruct (Get_shape T s) as (r & s1 & -> & Hsh). simpl.
  destruct Hsh as [->|[(viv & w & -> & _)|(viv & w & val' & _ & _ & ->)]].
  - exists []. rewrite app_nil_r. split; [done|]. intros ev Hin. by inversion Hin.
  - exists [Vivified viv T]. split; [done|].
    intros ev ->%list_elem_of_singleton. eauto.
  - exists [Vivified viv T]. split; [done|].
    intros ev ->%list_elem_of_singleton. eauto.
Qed.

(** ** A run of successful Gets *)

Lemma resolved_events s typs values s' :
  resolved s typs values s' →
  ∃ evs, trace s' = trace s ++ evs
    ∧ ∀ ev, ev ∈ evs → ∃ viv U, ev = Vivified viv U ∧ U ∈ typs.
Proof.
  induction 1 as [s|s typ typs val values s1 s2 HG _ (evs2 & Htr2 & Hev2)].
  - exists []. rewrite app_nil_r. split; [done|]. intros ev Hin. by inversion Hin.
  - destruct (Get_events typ s) as (evs1 & Htr1 & Hev1).
    rewrite HG in Htr1. simpl in Htr1.
    exists (evs1 ++ evs2). rewrite Htr2, Htr1, app_assoc. split; [done|].
    intros ev [Hin|Hin]%elem_of_app.
    + destruct (Hev1 _ Hin) as (viv & ->). exists viv, typ. split; [done|].
      apply list_elem_of_here.
    + destruct (Hev2 _ Hin) as (viv & U & -> & HU). exists viv, U.
      split; [done|]. by apply list_elem_of_further.
Qed.

Lemma resolved_other s typs values s' U :
  resolved s typs values s' → U ∉ typs → cached (inj s') U = cached (inj s) U.
Proof.
  induction 1 as [s|s typ typs val values s1 s2 HG _ IH]; [done|].
  intros [Hne Hnin]%not_elem_of_cons.
  rewrite (IH Hnin). pose proof (Get_other typ U s Hne) as Ho.
  by rewrite HG in Ho.
Qed.

Lemma resolved_keeps s typs values s' U val :
  resolved s typs values s' →
  cached (inj s) U = Some val → cached (inj s') U = Some val.
Proof.
  induction 1 as [s|s typ typs val' values s1 s2 HG _ IH]; [done|].
  intros Hc. apply IH. pose proof (Get_keeps typ U s val Hc) as Hk.
  by rewrite HG in Hk.
Qed.


(** Values that are cached resolve at once, and nothing changes. *)
Lemma resolved_cached s typs :
  (∀ U, U ∈ typs → is_Some (cached (inj s) U)) →
  ∃ values, resolved s typs values s
    ∧ Forall2 (λ U val, cached (inj s) U = Some val) typs values.
Proof.
  induction typs as [|typ typs IH]; intros Hall.
  - exists []. split; constructor.
  - destruct (Hall typ) as [val Hc]; [apply list_elem_of_here|].
    destruct IH as (values & Hres & Hall2).
    { intros U HU. apply Hall. by apply list_elem_of_further. }
    exists (val :: values). split.
    + econstructor; [by apply Get_cached | done].
    + by constructor.
Qed.

(** ** CallMethod *)

Lemma inputs_resolved s typs values s' acc :
  resolved s typs values s' →
  inputs typs acc s = (Done (inl (acc ++ values)), s').
Proof.
  intros Hres. revert acc.
  induction Hres as [s|s typ typs val values s1 s2 HG _ IH]; intros acc.
  - by rewrite app_nil_r.
  - simpl. rewrite (bind_done _ _ _ _ _ HG). simpl.
    by rewrite IH, <- app_assoc.
Qed.

Lemma inputs_fails s pre values s1 T post val e s2 acc :
  resolved s pre values s1 →
  Get T s1 = (Done (val, Some e), s2) →
  inputs (pre ++ T :: post) acc s = (Done (inr e), s2).
Proof.
  intros Hres. revert acc.
  induction Hres as [s|s typ typs val' values s1 s2' HG _ IH]; intros acc HGT.
  - simpl. by rewrite (bind_done _ _ _ _ _ HGT).
  - simpl. rewrite (bind_done _ _ _ _ _ HG). simpl. by apply IH.
Qed.

Lemma callable_badSignature mTyp : callable mTyp → badSignature mTyp = false.
Proof.
  intros (_ & Hv & Hres). unfold badSignature, NumOut, Out. rewrite Hv.
  destruct Hres as [->|(o & -> & Hok)]; simpl; [done|].
  by rewrite Hok.
Qed.

(** What [CallMethod] refuses before it looks at any parameter. *)
Lemma CallMethod_bad_method mTyp d s :
  Kind mTyp ≠ KFunc ∨ IsVariadic mTyp = true ∨ 1 < NumOut mTyp
    ∨ (NumOut mTyp = 1 ∧ AssignableTo (Out mTyp 0) errType = false) →
  CallMethod (Val mTyp d) s = (Done (Some (ErrBadMethod : error)), s).
Proof.
  intros H. unfold CallMethod.
  destruct (decide (Kind mTyp = KFunc)) as [Hk|Hk].
  2: { by rewrite bool_decide_eq_false_2. }
  rewrite bool_decide_eq_true_2 by done. simpl.
  assert (badSignature mTyp = true) as ->; [|done].
  unfold badSignature. destruct H as [?|[->|[Hn|[Hn Hno]]]]; [done|done|..].
  - rewrite (bool_decide_eq_true_2 _ Hn). by rewrite orb_true_r.
  - rewrite (bool_decide_eq_true_2 _ Hn), Hno. simpl. by rewrite orb_true_r.
Qed.

Lemma CallMethod_resolved mTyp d s values s1 :
  callable mTyp → resolved s (params mTyp) values s1 →
  CallMethod (Val mTyp d) s = finish (Val mTyp d) values s1.
Proof.
  intros Hcall Hres. unfold CallMethod.
  rewrite (callable_badSignature _ Hcall).
  destruct Hcall as (Hk & _). rewrite bool_decide_eq_true_2 by done. simpl.
  by rewrite (bind_done _ _ _ _ _ (inputs_resolved _ _ _ _ [] Hres)).
Qed.

Lemma finish_state meth values s :
  (finish meth values s).2
  = after (Invoked meth values) (Invoke meth values (world s)).2 s.
Proof.
  unfold finish, mbind, M_bind, call.
  destruct (Invoke meth values (world s)) as [[[|[|e|v] rs]|msg] w]; done.
Qed.

Lemma finish_done meth values s rs w :
  Invoke meth values (world s) = (Done rs, w) →
  finish meth values s =
    match rs with
    | RetError e :: _ => (Done (Some e), after (Invoked meth values) w s)
    | RetNil :: _ =>
        (Panicked "interface conversion: interface is nil, not error",
         after (Invoked meth values) w s)
    | RetOther _ :: _ =>
        (Panicked "interface conversion: missing method Error",
         after (Invoked meth values) w s)
    | [] => (Done None, after (Invoked meth values) w s)
    end.
Proof.
  intros Hi. unfold finish, mbind, M_bind, call. rewrite Hi.
  by destruct rs as [|[|e|v] rs].
Qed.

(** A function that returns a non-nil error: [CallMethod] returns it. *)
Lemma CallMethod_error mTyp d s values s1 e rs w :
  callable mTyp → resolved s (params mTyp) values s1 →
  Invoke (Val mTyp d) values (world s1) = (Done (RetError e :: rs), w) →
  CallMethod (Val mTyp d) s
  = (Done (Some e), after (Invoked (Val mTyp d) values) w s1).
Proof.
  intros Hcall Hres Hi.
  by rewrite (CallMethod_resolved _ _ _ _ _ Hcall Hres), (finish_done _ _ _ _ _ Hi).
Qed.

(** A function that returns a nil error: the type assertion in the last
    statement of [CallMethod] panics. *)
Lemma CallMethod_nil_error mTyp d s values s1 rs w :
  callable mTyp → resolved s (params mTyp) values s1 →
  Invoke (Val mTyp d) values (world s1) = (Done (RetNil :: rs), w) →
  CallMethod (Val mTyp d) s
  = (Panicked "interface conversion: interface is nil, not error",
     after (Invoked (Val mTyp d) values) w s1).
Proof.
  intros Hcall Hres Hi.
  by rewrite (CallMethod_resolved _ _ _ _ _ Hcall Hres), (finish_done _ _ _ _ _ Hi).
Qed.

(** A function without results: [CallMethod] returns nil. *)
Lemma CallMethod_no_result mTyp d s values s1 w :
  callable mTyp → resolved s (params mTyp) values s1 →
  Invoke (Val mTyp d) values (world s1) = (Done [], w) →
  CallMethod (Val mTyp d) s
  = (Done None, after (Invoked (Val mTyp d) values) w s1).
Proof.
  intros Hcall Hres Hi.
  by rewrite (CallMethod_resolved _ _ _ _ _ Hcall Hres), (finish_done _ _ _ _ _ Hi).
Qed.


(** C8: when the parameters before the k-th resolve and [Get] for the
    k-th returns an error, [CallMethod] returns that error and ends in the
    state that [Get] left.  The Injector is the one the parameters before
    the k-th left; every call made is a vivifier call for the type of one of
    the first k parameters, so the function is not called and no later
    parameter is tried; and the slot of every type other than those of the
    parameters before the k-th is what it was before the call, so nothing
    is cached for a later parameter. *)
Theorem CallMethod_parameter_fails s mTyp d pre T post values s1 val e s2 :
  callable mTyp →
  params mTyp = pre ++ T :: post →
  resolved s pre values s1 →
  Get T s1 = (Done (val, Some e), s2) →
  CallMethod (Val mTyp d) s = (Done (Some e), s2)
  ∧ inj s2 = inj s1
  ∧ (∃ evs, trace s2 = trace s ++ evs
       ∧ ∀ ev, ev ∈ evs → ∃ viv U, ev = Vivified viv U ∧ U ∈ pre ++ [T])
  ∧ (∀ U, U ∉ pre → cached (inj s2) U = cached (inj s) U).
Proof.
  intros Hcall Hpar Hres HG.
  pose proof (Get_error_inj _ _ _ _ _ HG) as Hinj.
  split; [|split; [done|split]].
  - unfold CallMethod. rewrite (callable_badSignature _ Hcall).
    destruct Hcall as (Hk & _). rewrite bool_decide_eq_true_2 by done. simpl.
    rewrite Hpar.
    by rewrite (bind_done _ _ _ _ _ (inputs_fails _ _ _ _ _ post _ _ _ [] Hres HG)).
  - destruct (resolved_events _ _ _ _ Hres) as (evs1 & Htr1 & Hev1).
    destruct (Get_events T s1) as (evs2 & Htr2 & Hev2).
    rewrite HG in Htr2. simpl in Htr2.
    exists (evs1 ++ evs2). rewrite Htr2, Htr1, app_assoc. split; [done|].
    intros ev [Hin|Hin]%elem_of_app.
    + destruct (Hev1 _ Hin) as (viv & U & -> & HU). exists viv, U.
      split; [done|]. apply elem_of_app. by left.
    + destruct (Hev2 _ Hin) as (viv & ->). exists viv, T.
      split; [done|]. apply elem_of_app. right. apply list_elem_of_here.
  - intros U Hnin. rewrite Hinj. by apply (resolved_other _ _ _ _ _ Hres).
Qed.

(** * More on the registry *)

(** ** add *)

(** X1: [add] tests the type of the value before it looks at the slot: a
    value of a type that is not assignable to [typ] is refused with an
    error that is [ErrBadType] and is not [ErrDuplicate], whether the slot
    is taken or not, and the state is what it was. *)
Theorem add_type_before_duplicate typ obj t d s :
  reflected obj = Val t d → AssignableTo t typ = false →
  ∃ e, add typ obj s = (Done (ZeroValue, Some e), s)
    ∧ Is e ErrBadType = true ∧ Is e ErrDuplicate = false.
Proof.
  intros Hr Hno. rewrite (add_bad_type _ _ _ _ _ Hr Hno). by eexists.
Qed.

(** What [add] has done when it returns an error, and when it returns
    none. *)
Lemma add_error_inv typ obj s val e s' :
  add typ obj s = (Done (val, Some e), s') →
  s' = s ∧ val = ZeroValue
  ∧ ((Is e ErrBadType = true ∧ ∃ t d, reflected obj = Val t d
                                      ∧ AssignableTo t typ = false)
     ∨ (Is e ErrDuplicate = true ∧ is_Some (cached (inj s) typ))).
Proof.
  intros Ha. destruct (reflected obj) as [|t d] eqn:Hr.
  { by rewrite (add_zero _ _ _ Hr) in Ha. }
  destruct (AssignableTo t typ) eqn:Hok.
  - destruct (cached (inj s) typ) as [val0|] eqn:Hc.
    + rewrite (add_duplicate _ _ _ _ _ _ Hr Hok Hc) in Ha. simplify_eq.
      split; [done|]. split; [done|]. right. split; [done | by eexists].
    + by rewrite (add_fresh _ _ _ _ _ Hr Hok Hc) in Ha.
  - rewrite (add_bad_type _ _ _ _ _ Hr Hok) in Ha. simplify_eq.
    split; [done|]. split; [done|]. left. split; [done | by eexists _, _].
Qed.

Lemma add_done_inv typ obj s val s' :
  add typ obj s = (Done (val, None), s') →
  reflected obj = val ∧ fits typ val = true
  ∧ cached (inj s) typ = None ∧ s' = store typ val s.
Proof.
  intros Ha. destruct (reflected obj) as [|t d] eqn:Hr.
  { by rewrite (add_zero _ _ _ Hr) in Ha. }
  destruct (AssignableTo t typ) eqn:Hok.
  - destruct (cached (inj s) typ) as [val0|] eqn:Hc.
    + by rewrite (add_duplicate _ _ _ _ _ _ Hr Hok Hc) in Ha.
    + rewrite (add_fresh _ _ _ _ _ Hr Hok Hc) in Ha. by simplify_eq.
  - by rewrite (add_bad_type _ _ _ _ _ Hr Hok) in Ha.
Qed.

Lemma add_panicked_inv typ obj s msg s' :
  add typ obj s = (Panicked msg, s') → s' = s ∧ reflected obj = ZeroValue.
Proof.
  intros Ha. destruct (reflected obj) as [|t d] eqn:Hr.
  { rewrite (add_zero _ _ _ Hr) in Ha. by simplify_eq. }
  destruct (AssignableTo t typ) eqn:Hok.
  - destruct (cached (inj s) typ) as [val0|] eqn:Hc.
    + by rewrite (add_duplicate _ _ _ _ _ _ Hr Hok Hc) in Ha.
    + by rewrite (add_fresh _ _ _ _ _ Hr Hok Hc) in Ha.
  - by rewrite (add_bad_type _ _ _ _ _ Hr Hok) in Ha.
Qed.

(** ** Add, AddInterface and a following Get *)

(** X2: [Add] of a value whose type has no slot succeeds, and [Get] of
    that type then returns the value and changes nothing, so it calls no
    vivifier even when one is there for the type.  [Add] leaves the world,
    the trace, the vivifiers, the fallback and the other slots alone. *)
Theorem Add_then_Get obj t d s :
  reflected obj = Val t d → cached (inj s) t = None →
  ∃ s1, Add obj s = (Done None, s1)
    ∧ Get t s1 = (Done (Val t d, None), s1)
    ∧ world s1 = world s ∧ trace s1 = trace s
    ∧ Vivifiers (inj s1) = Vivifiers (inj s)
    ∧ Fallback (inj s1) = Fallback (inj s)
    ∧ ∀ U, U ≠ t → cached (inj s1) U = cached (inj s) U.
Proof.
  intros Hr Hc. exists (store t (Val t d) s).
  split; [by apply Add_fresh|]. split; [apply Get_cached, cached_store|].
  repeat split. intros U Hne. by apply cached_store_ne.
Qed.

(** X3: [AddInterface] of a value that implements the named interface,
    when the interface has no slot, succeeds and stores the value under the
    interface type: [Get] of the interface then returns the value and
    changes nothing, and the slots of the other types, that of the value's
    own type among them, are what they were. *)
Theorem AddInterface_then_Get ifc T obj t d s :
  names ifc T → Kind T = KInterface →
  reflected obj = Val t d → AssignableTo t T = true →
  cached (inj s) T = None →
  ∃ s1, AddInterface ifc obj s = (Done None, s1)
    ∧ Get T s1 = (Done (Val t d, None), s1)
    ∧ world s1 = world s ∧ trace s1 = trace s
    ∧ ∀ U, U ≠ T → cached (inj s1) U = cached (inj s) U.
Proof.
  intros Hn Hk Hr Hok Hc. exists (store T (Val t d) s).
  assert (obj ≠ NilIface) as Hobj by (intros ->; discriminate).
  split.
  { rewrite (AddInterface_named _ _ _ _ Hn Hk Hobj).
    by rewrite (bind_done _ _ _ _ _ (add_fresh _ _ _ _ _ Hr Hok Hc)). }
  split; [apply Get_cached, cached_store|].
  repeat split. intros U Hne. by apply cached_store_ne.
Qed.

(** X4: a token that does not name an interface.  With an object that is
    not nil, [AddInterface] returns [ErrBadInterface] and changes nothing
    for a [reflect.Type] that is not an interface, for a value that is not
    a pointer, and for a pointer to something that is not an interface;
    for a nil token it panics, since [reflect.TypeOf(nil)] is nil. *)
Theorem AddInterface_bad_token obj s :
  obj ≠ NilIface →
  (∀ T, Kind T ≠ KInterface →
     AddInterface (OfType T) obj s = (Done (Some (ErrBadInterface : error)), s))
  ∧ (∀ p d, Kind p ≠ KPtr ∨ Kind (Elem p) ≠ KInterface →
     AddInterface (Dyn p d) obj s = (Done (Some (ErrBadInterface : error)), s))
  ∧ AddInterface NilIface obj s
    = (Panicked "invalid memory address or nil pointer dereference", s).
Proof.
  intros Hobj. split; [|split].
  - intros T Hk. by apply (AddInterface_not_interface _ T); [constructor|..].
  - intros p d Hbad. destruct (decide (Kind p = KPtr)) as [Hp|Hp].
    + destruct Hbad as [?|Hi]; [done|].
      by apply (AddInterface_not_interface _ (Elem p)); [constructor|..].
    + unfold AddInterface. destruct obj; try done; simpl;
        unfold mbind, M_bind, mret, M_ret; simpl;
        by rewrite (bool_decide_eq_false_2 _ Hp).
  - by destruct obj.
Qed.

(** ** The errors of the registrations *)

(** X5: when [Add] returns an error, the state is what it was, and either
    the object is nil and the error is [ErrNil], or the type of the object
    has a slot and the error is [ErrDuplicate]; [Add] never returns
    [ErrBadType]. *)
Theorem Add_error_inv obj s e s' :
  Add obj s = (Done (Some e), s') →
  s' = s
  ∧ ((obj = NilIface ∧ e = ErrNil)
     ∨ (∃ t d, reflected obj = Val t d ∧ is_Some (cached (inj s) t)
               ∧ e = Errorf "type %s: %w" [OpType t] ErrDuplicate)).
Proof.
  intros HA. destruct (reflected obj) as [|t d] eqn:Hr.
  - destruct obj as [|v|t|t d]; simpl in Hr; try discriminate.
    + rewrite Add_nil in HA. simplify_eq. split; [done|]. by left.
    + subst v. discriminate.
  - destruct (cached (inj s) t) as [val0|] eqn:Hc.
    + rewrite (Add_duplicate _ _ _ _ _ Hr Hc) in HA. simplify_eq.
      split; [done|]. right. exists t, d. rewrite Hc. by eauto.
    + by rewrite (Add_fresh _ _ _ _ Hr Hc) in HA.
Qed.

(** X6: when [AddInterface] returns an error, the state is what it was and
    the error is [ErrNil], [ErrBadInterface], [ErrBadType] or
    [ErrDuplicate]. *)
Theorem AddInterface_error_inv ifc obj s e s' :
  AddInterface ifc obj s = (Done (Some e), s') →
  s' = s
  ∧ (Is e ErrNil || Is e ErrBadInterface || Is e ErrBadType
     || Is e ErrDuplicate) = true.
Proof.
  assert (∀ T, (add T obj ≫= λ '(_, err), mret err) s = (Done (Some e), s') →
            s' = s ∧ (Is e ErrNil || Is e ErrBadInterface || Is e ErrBadType
                      || Is e ErrDuplicate) = true) as Hadd.
  { intros T. unfold mbind, M_bind, mret, M_ret.
    destruct (add T obj s) as [[[val [e'|]]|msg] s1] eqn:Ha; simpl;
      intros ?; simplify_eq.
    destruct (add_error_inv _ _ _ _ _ _ Ha) as (-> & _ & [[-> _]|[-> _]]);
      split; try done; by rewrite ?orb_true_r. }
  assert (∀ err : Error, (Done (Some (err : error)), s) = (Done (Some e), s') →
            err = ErrNil ∨ err = ErrBadInterface →
            s' = s ∧ (Is e ErrNil || Is e ErrBadInterface || Is e ErrBadType
                      || Is e ErrDuplicate) = true) as Hown.
  { intros err ? [-> | ->]; by simplify_eq. }
  assert (∀ T, (if negb (bool_decide (Kind T = KInterface))
                then mret (Some (ErrBadInterface : error))
                else add T obj ≫= λ '(_, err), mret err) s
               = (Done (Some e), s') →
            s' = s ∧ (Is e ErrNil || Is e ErrBadInterface || Is e ErrBadType
                      || Is e ErrDuplicate) = true) as Hfin.
  { intros T. case_bool_decide; simpl; [apply Hadd|].
    intros ?. apply (Hown ErrBadInterface); auto. }
  unfold AddInterface. destruct obj as [|v|t|t d] eqn:Hobj.
  { intros ?. apply (Hown ErrNil); auto. }
  all: destruct ifc as [|v'|T|p d']; simpl; try apply Hfin; try done.
  all: unfold mbind at 1, M_bind at 1, mret at 1, M_ret at 1; simpl.
  all: case_bool_decide; simpl; try apply Hfin.
  all: intros ?; apply (Hown ErrBadInterface); auto.
Qed.

(** ** AddVivifier *)

Lemma vivifierType_files obj t s : files obj t → vivifierType obj s = (Done t, s).
Proof.
  intros [t'|t' d Hbad|p d Hp Hi].
  - reflexivity.
  - unfold vivifierType. simpl. unfold mbind, M_bind, mret, M_ret. simpl.
    destruct (decide (Kind t' = KPtr)) as [Hp|Hp].
    + destruct Hbad as [?|Hi]; [done|].
      by rewrite (bool_decide_eq_true_2 _ Hp), (bool_decide_eq_false_2 _ Hi).
    + by rewrite (bool_decide_eq_false_2 _ Hp).
  - by apply vivifierType_pointer_to_interface.
Qed.

(** X7: [AddVivifier] for a type that has a vivifier returns an error that
    is [ErrDuplicate] and changes nothing: the first vivifier stays. *)
Theorem AddVivifier_duplicate_kept obj t viv viv0 s :
  files obj t → specific (inj s) t = Some viv0 →
  ∃ e, AddVivifier obj (Some viv) s = (Done (Some e), s)
    ∧ Is e ErrDuplicate = true.
Proof.
  intros Hf Hs.
  rewrite (AddVivifier_duplicate _ _ _ _ _ (vivifierType_files _ _ _ Hf) Hs).
  by eexists.
Qed.

(** X8: [AddVivifier] for a type without a vivifier succeeds whether or not
    the type has a slot, and touches neither the slots nor the fallback nor
    the vivifiers of the other types.  Afterwards [Get] of the type returns
    the slot's value and changes nothing if there is one, and calls the new
    vivifier, not the fallback, if there is none. *)
Theorem AddVivifier_then_Get obj T viv s :
  files obj T → specific (inj s) T = None →
  ∃ s1, AddVivifier obj (Some viv) s = (Done None, s1)
    ∧ Objects (inj s1) = Objects (inj s)
    ∧ Fallback (inj s1) = Fallback (inj s)
    ∧ (∀ U, U ≠ T → specific (inj s1) U = specific (inj s) U)
    ∧ (∀ val, cached (inj s) T = Some val → Get T s1 = (Done (val, None), s1))
    ∧ (cached (inj s) T = None →
       trace (Get T s1).2 = trace s1 ++ [Vivified viv T]).
Proof.
  intros Hf Hs. exists (storeVivifier T viv s).
  split; [by apply AddVivifier_fresh; [apply vivifierType_files|]|].
  split; [done|]. split; [done|]. split; [|split].
  - intros U Hne. by apply specific_storeVivifier_ne.
  - intros val Hc. by apply Get_cached.
  - intros Hc. apply Get_trace; [done|].
    unfold selected. by rewrite specific_storeVivifier.
Qed.

(** X9: when [AddVivifier] returns an error, the state is what it was, and
    either the vivifier is nil and the error is [ErrNil], or the error is
    [ErrDuplicate]. *)
Theorem AddVivifier_error_inv obj (given : option vivifier) s e s' :
  AddVivifier obj given s = (Done (Some e), s') →
  s' = s ∧ ((given = None ∧ e = ErrNil) ∨ Is e ErrDuplicate = true).
Proof.
  destruct given as [viv|]; simpl.
  2: { unfold mret, M_ret. intros ?. simplify_eq. split; [done|]. by left. }
  unfold mbind at 1, M_bind at 1.
  assert (∀ r s1, vivifierType obj s = (r, s1) → s1 = s) as Hty.
  { intros r s1. unfold vivifierType.
    destruct (asType obj); [unfold mret, M_ret; intros ?; by simplify_eq|].
    unfold mbind, M_bind, Kind_.
    destruct (TypeOf obj) as [t|]; simpl; unfold mret, M_ret, panic;
      [|intros ?; by simplify_eq].
    repeat case_bool_decide; intros ?; by simplify_eq. }
  destruct (vivifierType obj s) as [[typ|msg] s1] eqn:Ht; [|done].
  assert (s1 = s) as -> by (by eapply Hty).
  unfold mbind, M_bind, mret, M_ret, getInjector, setVivifiers. simpl.
  destruct (Vivifiers (inj s)) as [m|]; simpl; [|done].
  destruct (m !! typ); [|done].
  intros ?. simplify_eq. split; [done|]. by right.
Qed.

(** * More on Get and CallMethod *)

(** ** What Get returns *)

(** X10: a successful [Get] returns what the slot of the type holds
    afterwards.  Either the value was in the slot and nothing changed, or
    the slot was empty, the vivifier [Get] turns to was called once, and
    its value, of a type assignable to [T], was stored. *)
Theorem Get_done_inv T s val s' :
  Get T s = (Done (val, None), s') →
  cached (inj s') T = Some val
  ∧ ((cached (inj s) T = Some val ∧ s' = s)
     ∨ (cached (inj s) T = None ∧ fits T val = true
        ∧ ∃ viv w, selected (inj s) T = Some viv
                   ∧ s' = store T val (after (Vivified viv T) w s))).
Proof.
  intros HG. split; [by eapply Get_done_cached|].
  destruct (cached (inj s) T) as [val0|] eqn:Hc.
  { rewrite (Get_cached _ _ _ Hc) in HG. simplify_eq. by left. }
  right. split; [done|].
  destruct (selected (inj s) T) as [viv|] eqn:Hsel.
  2: { by rewrite (Get_missing _ _ Hc Hsel) in HG. }
  rewrite (Get_selected _ _ _ Hc Hsel) in HG.
  destruct (Vivify viv (inj s) T (world s)) as [[[obj [e|]]|msg] w] eqn:Hv.
  - by rewrite (vivifyAndAdd_error _ _ _ _ _ _ Hv) in HG.
  - rewrite (vivifyAndAdd_value _ _ _ _ _ Hv) in HG.
    destruct (add_done_inv _ _ _ _ _ HG) as (_ & Hfit & _ & ->). eauto.
  - by rewrite (vivifyAndAdd_panicked _ _ _ _ _ Hv) in HG.
Qed.

(** X11: when [Get] returns an error, the value it returns is the zero
    Value and the Injector is what it was.  Either there is neither a slot
    nor a vivifier nor a fallback, the error is [ErrMissingValue] and
    nothing was called; or the vivifier [Get] turns to was called once, and
    the error is the one it returned, or is [ErrBadType] for the value it
    returned. *)
Theorem Get_error_inv T s val e s' :
  Get T s = (Done (val, Some e), s') →
  val = ZeroValue ∧ inj s' = inj s ∧ cached (inj s) T = None
  ∧ ((selected (inj s) T = None ∧ s' = s ∧ Is e ErrMissingValue = true)
     ∨ (∃ viv obj w, selected (inj s) T = Some viv
          ∧ s' = after (Vivified viv T) w s
          ∧ (Vivify viv (inj s) T (world s) = (Done (obj, Some e), w)
             ∨ (Vivify viv (inj s) T (world s) = (Done (obj, None), w)
                ∧ Is e ErrBadType = true)))).
Proof.
  intros HG.
  destruct (cached (inj s) T) as [val0|] eqn:Hc.
  { by rewrite (Get_cached _ _ _ Hc) in HG. }
  destruct (selected (inj s) T) as [viv|] eqn:Hsel.
  2: { rewrite (Get_missing _ _ Hc Hsel) in HG. simplify_eq.
       repeat split; try done. by left. }
  rewrite (Get_selected _ _ _ Hc Hsel) in HG.
  destruct (Vivify viv (inj s) T (world s)) as [[[obj [e'|]]|msg] w] eqn:Hv.
  - rewrite (vivifyAndAdd_error _ _ _ _ _ _ Hv) in HG. simplify_eq.
    repeat split; try done. right. exists viv, obj, w. auto.
  - rewrite (vivifyAndAdd_value _ _ _ _ _ Hv) in HG.
    destruct (add_error_inv _ _ _ _ _ _ HG) as (-> & -> & [[HE _]|[_ [? Hc']]]).
    + repeat split; try done. right. exists viv, obj, w. auto.
    + simpl in Hc'. congruence.
  - by rewrite (vivifyAndAdd_panicked _ _ _ _ _ Hv) in HG.
Qed.

(** X12: a [Get] that does not return a value, because it returns an error
    or because it panics, leaves the Injector as it was: no slot is left
    behind. *)
Theorem Get_failure_keeps_injector T s :
  (∀ val, (Get T s).1 ≠ Done (val, None)) → inj (Get T s).2 = inj s.
Proof.
  intros Hno. destruct (Get_shape T s) as (r & s1 & HG & Hsh).
  rewrite HG in Hno |- *. simpl in *.
  destruct Hsh as [->|[(viv & w & -> & _)|(viv & w & val' & -> & _)]];
    [done | done | by destruct (Hno val')].
Qed.

(** ** What is kept across Get and CallMethod *)

(** What a registration does to the state: nothing, or one store of a value
    that fits. *)
Lemma add_state typ obj s :
  (add typ obj s).2 = s
  ∨ ∃ val, fits typ val = true ∧ (add typ obj s).2 = store typ val s.
Proof.
  destruct (add typ obj s) as [[[val [e|]]|msg] s'] eqn:Ha; simpl.
  - left. by destruct (add_error_inv _ _ _ _ _ _ Ha) as (-> & _).
  - right. destruct (add_done_inv _ _ _ _ _ Ha) as (_ & Hfit & _ & ->). eauto.
  - left. by destruct (add_panicked_inv _ _ _ _ _ Ha) as (-> & _).
Qed.

Lemma Get_Vivifiers T s :
  Vivifiers (inj (Get T s).2) = Vivifiers (inj s)
  ∧ Fallback (inj (Get T s).2) = Fallback (inj s).
Proof.
  destruct (Get_shape T s) as (r & s1 & -> & Hsh). simpl.
  by destruct Hsh as [->|[(viv & w & -> & _)|(viv & w & val' & _ & _ & ->)]].
Qed.

Lemma wellTyped_store T val s :
  wellTyped (inj s) → fits T val = true → wellTyped (inj (store T val s)).
Proof.
  intros Hwt Hfit U v. destruct (decide (T = U)) as [->|Hne].
  - rewrite cached_store. by intros [= <-].
  - rewrite cached_store_ne by done. apply Hwt.
Qed.

Lemma Get_stored T s :
  inj (Get T s).2 = inj s
  ∨ ∃ val, fits T val = true ∧ inj (Get T s).2 = inj (store T val s).
Proof.
  destruct (cached (inj s) T) as [val0|] eqn:Hc.
  { rewrite (Get_cached _ _ _ Hc). by left. }
  destruct (selected (inj s) T) as [viv|] eqn:Hsel.
  2: { rewrite (Get_missing _ _ Hc Hsel). by left. }
  rewrite (Get_selected _ _ _ Hc Hsel).
  destruct (Vivify viv (inj s) T (world s)) as [[[obj [e|]]|msg] w] eqn:Hv.
  - rewrite (vivifyAndAdd_error _ _ _ _ _ _ Hv). by left.
  - rewrite (vivifyAndAdd_value _ _ _ _ _ Hv).
    destruct (add_state T obj (after (Vivified viv T) w s))
      as [->|(val & Hfit & ->)]; [by left|].
    right. by exists val.
  - rewrite (vivifyAndAdd_panicked _ _ _ _ _ Hv). by left.
Qed.

Lemma wellTyped_Objects i i' :
  Objects i' = Objects i → wellTyped i → wellTyped i'.
Proof. intros HO Hwt typ val. unfold cached. rewrite HO. apply Hwt. Qed.

Lemma Get_wellTyped T s : wellTyped (inj s) → wellTyped (inj (Get T s).2).
Proof.
  intros Hwt. destruct (Get_stored T s) as [->|(val & Hfit & ->)]; [done|].
  by apply wellTyped_store.
Qed.

(** A property of the Injector that each [Get] keeps is kept by the loop of
    [CallMethod], however it ends, and by [CallMethod]. *)
Lemma inputs_inv (P : Injector → Prop) :
  (∀ T s, P (inj s) → P (inj (Get T s).2)) →
  ∀ typs acc s, P (inj s) → P (inj (inputs typs acc s).2).
Proof.
  intros HGet typs. induction typs as [|typ typs IH]; intros acc s HP; [done|].
  simpl. unfold mbind, M_bind. specialize (HGet typ s HP).
  destruct (Get typ s) as [[[val [e|]]|msg] s1]; simpl in *; try done.
  by apply IH.
Qed.

Lemma finish_inj meth values s : inj (finish meth values s).2 = inj s.
Proof. by rewrite finish_state. Qed.

Lemma CallMethod_inv (P : Injector → Prop) meth s :
  (∀ T s, P (inj s) → P (inj (Get T s).2)) →
  P (inj s) → P (inj (CallMethod meth s).2).
Proof.
  intros HGet HP. destruct meth as [|mTyp d]; [done|]. unfold CallMethod.
  case_bool_decide; simpl; [|done].
  destruct (badSignature mTyp); [done|].
  unfold mbind at 1, M_bind at 1.
  pose proof (inputs_inv P HGet (params mTyp) [] s HP) as Hin.
  destruct (inputs (params mTyp) [] s) as [[[values|e]|msg] s1]; simpl in *;
    try done.
  fold (finish (Val mTyp d) values). by rewrite finish_inj.
Qed.

(** X13: slots are added, never replaced or removed: a value in a slot is
    still there after any [Get] and after any [CallMethod], however they
    end. *)
Theorem slots_kept s U val :
  cached (inj s) U = Some val →
  (∀ T, cached (inj (Get T s).2) U = Some val)
  ∧ (∀ meth, cached (inj (CallMethod meth s).2) U = Some val).
Proof.
  intros Hc. split.
  - intros T. by apply Get_keeps.
  - intros meth.
    apply (CallMethod_inv (λ i, cached i U = Some val)); [|done].
    intros T s0. apply Get_keeps.
Qed.

(** X14: [Get] and [CallMethod] never change the vivifiers or the
    fallback, however they end. *)
Theorem vivifiers_kept s :
  (∀ T, Vivifiers (inj (Get T s).2) = Vivifiers (inj s)
        ∧ Fallback (inj (Get T s).2) = Fallback (inj s))
  ∧ (∀ meth, Vivifiers (inj (CallMethod meth s).2) = Vivifiers (inj s)
             ∧ Fallback (inj (CallMethod meth s).2) = Fallback (inj s)).
Proof.
  split; [intros T; apply Get_Vivifiers|].
  intros meth.
  apply (CallMethod_inv
           (λ i, Vivifiers i = Vivifiers (inj s) ∧ Fallback i = Fallback (inj s)));
    [|done].
  intros T s0 [HV HF]. destruct (Get_Vivifiers T s0) as [-> ->]. done.
Qed.

Lemma bind_err_state (m : M (Value * option error)) s :
  ((m ≫= λ '(_, err), mret err) s).2 = (m s).2.
Proof. unfold mbind, M_bind. by destruct (m s) as [[[val err]|msg] s']. Qed.

Lemma Add_state obj s :
  (Add obj s).2 = s
  ∨ ∃ T val, fits T val = true ∧ (Add obj s).2 = store T val s.
Proof.
  destruct (reflected obj) as [|t d] eqn:Hr.
  - left. destruct obj as [|v|t|t d]; simpl in Hr; try discriminate; [done|].
    by subst v.
  - rewrite (Add_reflected _ _ _ _ Hr), bind_err_state.
    destruct (add_state t (OfValue (Val t d)) s) as [->|(val & ? & ->)]; eauto.
Qed.

Lemma AddInterface_state ifc obj s :
  (AddInterface ifc obj s).2 = s
  ∨ ∃ T val, fits T val = true ∧ (AddInterface ifc obj s).2 = store T val s.
Proof.
  assert (∀ T0 (m : M (option error)),
            m = (if negb (bool_decide (Kind T0 = KInterface))
                 then mret (Some (ErrBadInterface : error))
                 else add T0 obj ≫= λ '(_, err), mret err) →
            (m s).2 = s
            ∨ ∃ T val, fits T val = true ∧ (m s).2 = store T val s) as Hfin.
  { intros T0 m ->. case_bool_decide; simpl; [|by left].
    rewrite bind_err_state.
    destruct (add_state T0 obj s) as [->|(val & ? & ->)]; eauto. }
  unfold AddInterface. destruct obj as [|v|t|t d]; [by left|..].
  all: destruct ifc as [|v'|T|p d']; simpl;
    try (by eapply Hfin); try by left.
  all: rewrite !ret_bind.
  all: case_bool_decide; simpl; try (by eapply Hfin); by left.
Qed.

Lemma AddVivifier_Objects obj given s :
  Objects (inj (AddVivifier obj given s).2) = Objects (inj s).
Proof.
  destruct given as [viv|]; [|done]. simpl.
  unfold mbind at 1, M_bind at 1.
  assert (∀ r s1, vivifierType obj s = (r, s1) → s1 = s) as Hty.
  { intros r s1. unfold vivifierType.
    destruct (asType obj); [unfold mret, M_ret; intros ?; by simplify_eq|].
    unfold mbind, M_bind, Kind_.
    destruct (TypeOf obj) as [t|]; simpl; unfold mret, M_ret, panic;
      [|intros ?; by simplify_eq].
    repeat case_bool_decide; intros ?; by simplify_eq. }
  destruct (vivifierType obj s) as [[typ|msg] s1] eqn:Ht;
    (assert (s1 = s) as -> by (by eapply Hty)); [|done].
  unfold mbind, M_bind, mret, M_ret, getInjector, setVivifiers. simpl.
  destruct (Vivifiers (inj s)) as [m|]; simpl; [|done].
  by destruct (m !! typ).
Qed.

(** X15: type safety of the slots.  When every slot holds a value whose
    type is assignable to the type of the slot, this is still so after
    [Add], [AddInterface], [AddVivifier], [Get] and [CallMethod], however
    they end. *)
Theorem wellTyped_kept s :
  wellTyped (inj s) →
  (∀ obj, wellTyped (inj (Add obj s).2))
  ∧ (∀ ifc obj, wellTyped (inj (AddInterface ifc obj s).2))
  ∧ (∀ obj given, wellTyped (inj (AddVivifier obj given s).2))
  ∧ (∀ T, wellTyped (inj (Get T s).2))
  ∧ (∀ meth, wellTyped (inj (CallMethod meth s).2)).
Proof.
  intros Hwt. repeat split.
  - intros obj. destruct (Add_state obj s) as [->|(T & val & ? & ->)];
      [done | by apply wellTyped_store].
  - intros ifc obj.
    destruct (AddInterface_state ifc obj s) as [->|(T & val & ? & ->)];
      [done | by apply wellTyped_store].
  - intros obj given T val. unfold cached.
    rewrite AddVivifier_Objects. apply Hwt.
  - intros T. by apply Get_wellTyped.
  - intros meth. apply (CallMethod_inv wellTyped); [|done].
    intros T s0. apply Get_wellTyped.
Qed.

(** ** The run of CallMethod *)

Lemma inputs_done_inv typs acc s vs s' :
  inputs typs acc s = (Done (inl vs), s') →
  ∃ values, vs = acc ++ values ∧ resolved s typs values s'.
Proof.
  revert acc s. induction typs as [|typ typs IH]; intros acc s Hin.
  - simpl in Hin. unfold mret, M_ret in Hin. simplify_eq.
    exists []. rewrite app_nil_r. split; [done | constructor].
  - simpl in Hin. unfold mbind, M_bind in Hin.
    destruct (Get typ s) as [[[val [e|]]|msg] s1] eqn:HG; try done.
    destruct (IH _ _ Hin) as (values & -> & Hres).
    exists (val :: values). rewrite <- app_assoc. split; [done|].
    by econstructor.
Qed.

Lemma inputs_events typs acc s :
  ∃ evs, trace (inputs typs acc s).2 = trace s ++ evs
    ∧ ∀ ev, ev ∈ evs → ∃ viv U, ev = Vivified viv U ∧ U ∈ typs.
Proof.
  revert acc s. induction typs as [|typ typs IH]; intros acc s.
  - exists []. rewrite app_nil_r. split; [done|]. intros ev Hin. by inversion Hin.
  - destruct (Get_events typ s) as (evs1 & Htr1 & Hev1).
    assert (∀ ev, ev ∈ evs1 → ∃ viv U, ev = Vivified viv U ∧ U ∈ typ :: typs)
      as Hev1'.
    { intros ev Hin. destruct (Hev1 _ Hin) as (viv & ->).
      exists viv, typ. split; [done | apply list_elem_of_here]. }
    simpl. unfold mbind, M_bind.
    destruct (Get typ s) as [[[val [e|]]|msg] s1] eqn:HG; simpl in *;
      try by exists evs1.
    destruct (IH (acc ++ [val]) s1) as (evs2 & Htr2 & Hev2).
    exists (evs1 ++ evs2). rewrite Htr2, Htr1, app_assoc. split; [done|].
    intros ev [Hin|Hin]%elem_of_app; [by apply Hev1'|].
    destruct (Hev2 _ Hin) as (viv & U & -> & HU). exists viv, U.
    split; [done | by apply list_elem_of_further].
Qed.

Lemma resolved_Forall2 s typs values s' :
  resolved s typs values s' →
  Forall2 (λ U val, cached (inj s') U = Some val) typs values.
Proof.
  induction 1 as [s|s typ typs val values s1 s2 HG Hres IH]; constructor;
    [|done].
  eapply resolved_keeps; [done|]. by eapply Get_done_cached.
Qed.

Lemma resolved_again s typs values :
  Forall2 (λ U val, cached (inj s) U = Some val) typs values →
  resolved s typs values s.
Proof.
  induction 1 as [|U val typs values Hc _ IH]; [constructor|].
  econstructor; [by apply Get_cached | done].
Qed.

(** The four ways [CallMethod] goes for a valid Value. *)
Lemma CallMethod_run mTyp d s :
  CallMethod (Val mTyp d) s = (Done (Some (ErrBadMethod : error)), s)
  ∨ (∃ values s1, inputs (params mTyp) [] s = (Done (inl values), s1)
       ∧ CallMethod (Val mTyp d) s = finish (Val mTyp d) values s1)
  ∨ (∃ e s1, inputs (params mTyp) [] s = (Done (inr e), s1)
       ∧ CallMethod (Val mTyp d) s = (Done (Some e), s1))
  ∨ (∃ msg s1, inputs (params mTyp) [] s = (Panicked msg, s1)
       ∧ CallMethod (Val mTyp d) s = (Panicked msg, s1)).
Proof.
  unfold CallMethod. case_bool_decide; simpl; [|by left].
  destruct (badSignature mTyp); [by left|]. right.
  destruct (inputs (params mTyp) [] s) as [[[values|e]|msg] s1] eqn:Hin.
  - left. exists values, s1. by rewrite (bind_done _ _ _ _ _ Hin).
  - right. left. exists e, s1. by rewrite (bind_done _ _ _ _ _ Hin).
  - right. right. exists msg, s1. by rewrite (bind_panicked _ _ _ _ _ Hin).
Qed.

(** X16: the calls of one [CallMethod], however it ends: vivifiers, each
    for the type of a parameter, and then at most one call of the function,
    as the last event.  The function gets one value for each parameter, in
    order, and each value is the one in the slot of its parameter's
    type. *)
Theorem CallMethod_events mTyp d s :
  ∃ evs tail,
    trace (CallMethod (Val mTyp d) s).2 = trace s ++ evs ++ tail
    ∧ (∀ ev, ev ∈ evs → ∃ viv U, ev = Vivified viv U ∧ U ∈ params mTyp)
    ∧ (tail = []
       ∨ ∃ values,
           tail = [Invoked (Val mTyp d) values]
           ∧ Forall2 (λ U val,
                cached (inj (CallMethod (Val mTyp d) s).2) U = Some val)
               (params mTyp) values).
Proof.
  destruct (inputs_events (params mTyp) [] s) as (evs & Htr & Hev).
  destruct (CallMethod_run mTyp d s)
    as [->|[(values & s1 & Hin & ->)|[(e & s1 & Hin & ->)|(msg & s1 & Hin & ->)]]].
  - exists [], []. rewrite !app_nil_r. split; [done|].
    split; [|by left]. intros ev Hin. by inversion Hin.
  - rewrite Hin in Htr. simpl in Htr.
    destruct (inputs_done_inv _ _ _ _ _ Hin) as (values' & -> & Hres).
    exists evs, [Invoked (Val mTyp d) values']. rewrite finish_state. simpl.
    rewrite Htr, <- app_assoc. split; [done|]. split; [done|].
    right. exists values'. split; [done|]. by apply (resolved_Forall2 s).
  - rewrite Hin in Htr. exists evs, []. by rewrite app_nil_r; auto.
  - rewrite Hin in Htr. exists evs, []. by rewrite app_nil_r; auto.
Qed.

(** X17: what [CallMethod] refuses before it resolves any parameter: the
    zero Value with [ErrNoMethod]; a value that is not a function, a
    variadic function, a function of more than one result and a function
    whose one result is not assignable to [error] with [ErrBadMethod].  In
    each case the state, trace included, is what it was. *)
Theorem CallMethod_rejects s :
  CallMethod ZeroValue s = (Done (Some (ErrNoMethod : error)), s)
  ∧ ∀ mTyp d,
      Kind mTyp ≠ KFunc ∨ IsVariadic mTyp = true ∨ 1 < NumOut mTyp
        ∨ (NumOut mTyp = 1 ∧ AssignableTo (Out mTyp 0) errType = false) →
      CallMethod (Val mTyp d) s = (Done (Some (ErrBadMethod : error)), s).
Proof.
  split; [done|]. intros mTyp d Hbad. by apply CallMethod_bad_method.
Qed.

(** X18: a second [CallMethod] of a function whose parameters all resolved
    the first time calls no vivifier: it calls the function with the same
    values and leaves the Injector as the first call left it, whatever the
    function did the first time. *)
Theorem CallMethod_again mTyp d s values s1 :
  callable mTyp →
  resolved s (params mTyp) values s1 →
  trace (CallMethod (Val mTyp d) (CallMethod (Val mTyp d) s).2).2
  = trace (CallMethod (Val mTyp d) s).2 ++ [Invoked (Val mTyp d) values]
  ∧ inj (CallMethod (Val mTyp d) (CallMethod (Val mTyp d) s).2).2
    = inj (CallMethod (Val mTyp d) s).2.
Proof.
  intros Hcall Hres.
  rewrite (CallMethod_resolved _ d _ _ _ Hcall Hres).
  set (s2 := (finish (Val mTyp d) values s1).2).
  assert (inj s2 = inj s1) as Hinj by apply finish_inj.
  assert (resolved s2 (params mTyp) values s2) as Hres2.
  { apply resolved_again. rewrite Hinj. by apply (resolved_Forall2 s). }
  by rewrite (CallMethod_resolved _ d _ _ _ Hcall Hres2), finish_state.
Qed.

(** ** Call *)

(** X19: [Call] returns an error that is [ErrNoMethod], and changes
    nothing, for a nil object and for a method name that the object does
    not have; it is [CallMethod] of the method otherwise. *)
Theorem Call_spec obj method s :
  Call NilIface method s
  = (Done (Some (Errorf "%w %q" [OpQuoted method] ErrNoMethod)), s)
  ∧ ∀ t d, reflected obj = Val t d →
      (IsValid (MethodByName (Val t d) method) = false →
       ∃ e, Call obj method s = (Done (Some e), s) ∧ Is e ErrNoMethod = true)
      ∧ (IsValid (MethodByName (Val t d) method) = true →
         Call obj method s = CallMethod (MethodByName (Val t d) method) s).
Proof.
  split; [done|]. intros t d Hr.
  assert (Call obj method s
          = (if negb (IsValid (MethodByName (Val t d) method))
             then mret (Some (Errorf "%w %q" [OpQuoted method] ErrNoMethod))
             else CallMethod (MethodByName (Val t d) method)) s) as ->.
  { unfold Call. destruct obj; simplify_eq/=; reflexivity. }
  split; intros ->; simpl; [by eexists | done].
Qed.

(** ** Error and IsInjectorError *)

(** X20: [IsInjectorError] holds of exactly the errors that wrap, at any
    depth, an [Error] of the package. *)
Theorem IsInjectorError_Is e :
  IsInjectorError e = true ↔ ∃ target, Is e target = true.
Proof.
  induction e as [err|format ops w IH|msg]; simpl.
  - split; [|done]. intros _. exists err. by apply bool_decide_eq_true_2.
  - done.
  - split; [done|]. by intros [target ?].
Qed.

(** X21: for an accepted function whose parameters all resolve, the function
    is called once with the resolved values, and [CallMethod] ends in the
    state the call left.  A function without result makes [CallMethod]
    return nil, a function that returns an error that is not nil makes it
    return that very error, and a function that panics makes it panic. *)
Theorem CallMethod_returns mTyp d s values s1 r w :
  callable mTyp →
  resolved s (params mTyp) values s1 →
  Invoke (Val mTyp d) values (world s1) = (r, w) →
  (CallMethod (Val mTyp d) s).2 = after (Invoked (Val mTyp d) values) w s1
  ∧ (r = Done [] → (CallMethod (Val mTyp d) s).1 = Done None)
  ∧ (∀ e rs, r = Done (RetError e :: rs) →
       (CallMethod (Val mTyp d) s).1 = Done (Some e))
  ∧ (∀ msg, r = Panicked msg → (CallMethod (Val mTyp d) s).1 = Panicked msg).
Proof.
  intros Hcall Hres Hi. rewrite (CallMethod_resolved _ _ _ _ _ Hcall Hres).
  split; [by rewrite finish_state, Hi|].
  split; [|split].
  - intros ->. by rewrite (finish_done _ _ _ _ _ Hi).
  - intros e rs ->. by rewrite (finish_done _ _ _ _ _ Hi).
  - intros msg ->. unfold finish, mbind, M_bind, call. by rewrite Hi.
Qed.

End properties.

(** * The properties on the tests' registries *)

Section examples.
Import tests.
#[local] Existing Instance tests.runtime.

(** The first [Get] calls the vivifier of the type, not the fallback. *)
Example Get_prefers_specific :
  Get "int" withBoth =
    (Done (Val "int" (DInt 42), None),
     store "int" (Val "int" (DInt 42)) (after (rt:=runtime) (Vivified "42" "int") 0 withBoth)).
Proof. reflexivity. Qed.


Lemma Get_vivifier_error_witness :
  ∃ s1,
    Get "string" (withFallback "AnError") = (Done (ZeroValue, Some AnError), s1)
    ∧ inj s1 = inj (withFallback "AnError")
    ∧ cached (inj s1) "string" = None
    ∧ trace s1 = trace (withFallback "AnError") ++ [Vivified "AnError" "string"]
    ∧ trace (Get "string" s1).2 = trace s1 ++ [Vivified "AnError" "string"].
Proof.
  apply (Get_vivifier_error (withFallback "AnError") "string" "AnError"
           NilIface AnError 0%nat); reflexivity.
Defined.

Lemma Get_vivifier_bad_type_witness :
  ∃ e s1,
    Get "string" (withVivifier "string" "12345") = (Done (ZeroValue, Some e), s1)
    ∧ Is e ErrBadType = true
    ∧ inj s1 = inj (withVivifier "string" "12345")
    ∧ cached (inj s1) "string" = None.
Proof.
  apply (Get_vivifier_bad_type (withVivifier "string" "12345") "string" "12345"
           (Dyn "int" (DInt 12345)) 0%nat "int" (DInt 12345));
    reflexivity.
Defined.

Lemma duplicate_type_rejected_witness :
  (∃ e, Add (Dyn "string" (DString "a string")) withString
          = (Done (Some e), withString)
        ∧ Is e ErrDuplicate = true)
  ∧ (∃ e, AddInterface (Dyn "*injector.iTrialInterface" DNilPointer)
            (Dyn "injector.trialInterface" (DInt 0)) withTrial
          = (Done (Some e), withTrial)
        ∧ Is e ErrDuplicate = true).
Proof.
  split.
  - apply (duplicate_type_rejected withString "string"
             (Val "string" (DString "another string"))
             (Dyn "string" (DString "a string")) "string" (DString "a string"));
      reflexivity.
  - apply (duplicate_type_rejected withTrial "injector.iTrialInterface" (trial 5)
             (Dyn "injector.trialInterface" (DInt 0))
             "injector.trialInterface" (DInt 0));
      [reflexivity | reflexivity | | reflexivity | reflexivity].
    change (names (Dyn "*injector.iTrialInterface" DNilPointer)
              (Elem "*injector.iTrialInterface")).
    apply names_pointer. reflexivity.
Defined.

(** A value that does not implement the interface is refused for its type,
    though the slot is taken. *)
Example AddInterface_bad_type_first :
  ∃ e, AddInterface (OfType "injector.iTrialInterface") (Dyn "int" (DInt 3)) withTrial
       = (Done (Some e), withTrial)
     ∧ Is e ErrBadType = true ∧ Is e ErrDuplicate = false.
Proof. eexists. split; [reflexivity|]. split; reflexivity. Qed.

Lemma AddVivifier_type_token_witness :
  (∃ s1, AddVivifier (Dyn "*injector.iTrialInterface" DNilPointer) (Some "42")
           (start emptyInjector) = (Done None, s1)
       ∧ specific (inj s1) "injector.iTrialInterface" = Some "42"
       ∧ (cached emptyInjector "injector.iTrialInterface" = None →
          trace (Get "injector.iTrialInterface" s1).2
          = trace s1 ++ [Vivified "42" "injector.iTrialInterface"]))
  ∧ (∃ s1, AddVivifier (OfType "*injector.iTrialInterface") (Some "42")
             (start emptyInjector) = (Done None, s1)
       ∧ specific (inj s1) "*injector.iTrialInterface" = Some "42"
       ∧ ∀ T, T ≠ "*injector.iTrialInterface" →
           specific (inj s1) T = specific emptyInjector T).
Proof.
  split.
  - apply (proj1 (AddVivifier_type_token (start emptyInjector) "42")
             "*injector.iTrialInterface" DNilPointer); reflexivity.
  - apply (proj2 (AddVivifier_type_token (start emptyInjector) "42")
             "*injector.iTrialInterface"); reflexivity.
Defined.

(** C4 fails on the code: the [reflect.Type] of a pointer to an interface
    files the vivifier under the pointer type, as the package's test
    TestInjectorAddVivifierInterfaceType expects, and [Get] of the interface
    type finds no vivifier and calls none. *)
Lemma AddVivifier_Type_counterexample :
  Kind "*injector.iTrialInterface" = KPtr
  ∧ Kind (Elem "*injector.iTrialInterface") = KInterface
  ∧ AddVivifier (OfType "*injector.iTrialInterface") (Some "42") (start emptyInjector)
    = (Done None, withVivifier "*injector.iTrialInterface" "42")
  ∧ specific (inj (withVivifier "*injector.iTrialInterface" "42"))
      "injector.iTrialInterface" = None
  ∧ Get "injector.iTrialInterface" (withVivifier "*injector.iTrialInterface" "42")
    = (Done (ZeroValue,
             Some (Errorf "%w %s" [OpType "injector.iTrialInterface"] ErrMissingValue)),
       withVivifier "*injector.iTrialInterface" "42")
  ∧ trace (withVivifier "*injector.iTrialInterface" "42") = [].
Proof. repeat split; reflexivity. Qed.



Lemma CallMethod_parameter_fails_witness :
  CallMethod triple (withVivifier "int" "42")
  = (Done (Some (Errorf "%w %s" [OpType "string"] ErrMissingValue)),
     vivified "42" 42 0)
  ∧ inj (vivified "42" 42 0) = inj (vivified "42" 42 0)
  ∧ (∃ evs,
       trace (vivified "42" 42 0) = trace (withVivifier "int" "42") ++ evs
       ∧ ∀ ev, ev ∈ evs → ∃ viv U, ev = Vivified viv U ∧ U ∈ ["int"] ++ ["string"])
  ∧ (∀ U, U ∉ ["int"] →
       cached (inj (vivified "42" 42 0)) U = cached (inj (withVivifier "int" "42")) U).
Proof.
  apply (CallMethod_parameter_fails (withVivifier "int" "42")
           "func(int, string, bool)" (DFunc "Triple")
           ["int"] "string" ["bool"] [Val "int" (DInt 42)]
           (vivified "42" 42 0) ZeroValue).
  - split; [reflexivity | split; [reflexivity | left; reflexivity]].
  - reflexivity.
  - apply (resolved_cons (withVivifier "int" "42") "int" []
             (Val "int" (DInt 42)) [] (vivified "42" 42 0) (vivified "42" 42 0));
      [reflexivity|].
    apply resolved_nil.
  - reflexivity.
Defined.

(** C2 fails on the code: [func() error] is an accepted function type, the
    method returns a nil error, and [CallMethod] panics in its last
    statement, [result[0].Interface().(error)], where it should return
    nil. *)
Theorem CallMethod_nil_error_panics :
  callable "func() error"
  ∧ Invoke niladicNil [] 0%nat = (Done [RetNil], 1%nat)
  ∧ CallMethod niladicNil (start emptyInjector)
    = (Panicked "interface conversion: interface is nil, not error",
       after (rt:=runtime) (Invoked niladicNil []) 1%nat (start emptyInjector)).
Proof.
  split; [|split; reflexivity].
  split; [reflexivity | split; [reflexivity|]].
  right. exists "error". split; reflexivity.
Qed.

(** The same method returning an error that is not nil: [CallMethod]
    returns it. *)
Example CallMethod_error_returned :
  CallMethod niladicErr (start emptyInjector)
  = (Done (Some AnError), after (rt:=runtime) (Invoked niladicErr []) 1%nat (start emptyInjector)).
Proof. reflexivity. Qed.

(** C3 fails on the code: a vivifier that returns [nil, nil] makes [Get]
    panic where [Add] and [AddInterface] return [ErrNil]; nothing is
    stored. *)
Theorem Get_nil_vivified_panics :
  Vivify "nil" (inj (withVivifier "string" "nil")) "string" 0%nat
  = (Done (NilIface, None), 0%nat)
  ∧ Get "string" (withVivifier "string" "nil")
    = (Panicked "reflect: call of reflect.Value.Type on zero Value",
       after (rt:=runtime) (Vivified "nil" "string") 0%nat (withVivifier "string" "nil")).
Proof. split; reflexivity. Qed.

(** ** Examples of the further properties *)

Lemma add_type_before_duplicate_witness :
  ∃ e, add "injector.iTrialInterface" (Dyn "int" (DInt 3)) withTrial
       = (Done (ZeroValue, Some e), withTrial)
    ∧ Is e ErrBadType = true ∧ Is e ErrDuplicate = false.
Proof.
  apply (add_type_before_duplicate "injector.iTrialInterface"
           (Dyn "int" (DInt 3)) "int" (DInt 3) withTrial); reflexivity.
Defined.

Lemma Add_then_Get_witness :
  ∃ s1, Add (Dyn "string" (DString "a string")) (withVivifier "string" "a string")
        = (Done None, s1)
    ∧ Get "string" s1 = (Done (Val "string" (DString "a string"), None), s1)
    ∧ world s1 = world (withVivifier "string" "a string")
    ∧ trace s1 = trace (withVivifier "string" "a string")
    ∧ Vivifiers (inj s1) = Vivifiers (inj (withVivifier "string" "a string"))
    ∧ Fallback (inj s1) = Fallback (inj (withVivifier "string" "a string"))
    ∧ ∀ U, U ≠ "string" →
        cached (inj s1) U = cached (inj (withVivifier "string" "a string")) U.
Proof.
  apply (Add_then_Get (Dyn "string" (DString "a string")) "string"
           (DString "a string") (withVivifier "string" "a string"));
    reflexivity.
Defined.

Lemma AddInterface_then_Get_witness :
  ∃ s1, AddInterface (OfType "injector.iTrialInterface")
          (Dyn "injector.trialInterface" (DInt 0)) withInt = (Done None, s1)
    ∧ Get "injector.iTrialInterface" s1 = (Done (trial 0, None), s1)
    ∧ world s1 = world withInt ∧ trace s1 = trace withInt
    ∧ ∀ U, U ≠ "injector.iTrialInterface" →
        cached (inj s1) U = cached (inj withInt) U.
Proof.
  apply (AddInterface_then_Get (OfType "injector.iTrialInterface")
           "injector.iTrialInterface" (Dyn "injector.trialInterface" (DInt 0))
           "injector.trialInterface" (DInt 0) withInt);
    [apply names_Type | reflexivity | reflexivity | reflexivity
    | reflexivity].
Defined.

Lemma AddInterface_bad_token_witness :
  AddInterface (OfType "mock.Mock") (Dyn "injector.trialInterface" (DInt 0))
    (start emptyInjector)
  = (Done (Some (ErrBadInterface : error)), start emptyInjector)
  ∧ AddInterface (Dyn "int" (DInt 5)) (Dyn "injector.trialInterface" (DInt 0))
      (start emptyInjector)
    = (Done (Some (ErrBadInterface : error)), start emptyInjector)
  ∧ AddInterface (Dyn "*mock.Mock" DNilPointer)
      (Dyn "injector.trialInterface" (DInt 0)) (start emptyInjector)
    = (Done (Some (ErrBadInterface : error)), start emptyInjector)
  ∧ AddInterface NilIface (Dyn "injector.trialInterface" (DInt 0))
      (start emptyInjector)
    = (Panicked "invalid memory address or nil pointer dereference",
       start emptyInjector).
Proof.
  destruct (AddInterface_bad_token (Dyn "injector.trialInterface" (DInt 0))
              (start emptyInjector)) as (HT & Hv & Hnil); [discriminate|].
  split; [|split; [|split]].
  - apply HT. vm_compute. discriminate.
  - apply Hv. left. vm_compute. discriminate.
  - apply Hv. right. vm_compute. discriminate.
  - exact Hnil.
Defined.

Lemma Add_error_inv_witness :
  withString = withString
  ∧ ((Dyn "string" (DString "a string") = NilIface
      ∧ Errorf "type %s: %w" [OpType "string"] ErrDuplicate = ErrNil)
     ∨ (∃ t d, reflected (Dyn "string" (DString "a string")) = Val t d
          ∧ is_Some (cached (inj withString) t)
          ∧ Errorf "type %s: %w" [OpType "string"] ErrDuplicate
            = Errorf "type %s: %w" [OpType t] ErrDuplicate)).
Proof.
  apply (Add_error_inv (Dyn "string" (DString "a string")) withString).
  reflexivity.
Defined.

Lemma AddInterface_error_inv_witness :
  withTrial = withTrial
  ∧ (Is (Errorf "%#v %w %s" [OpValue (Val "int" (DInt 3));
                              OpType "injector.iTrialInterface"] ErrBadType) ErrNil
     || Is (Errorf "%#v %w %s" [OpValue (Val "int" (DInt 3));
                                 OpType "injector.iTrialInterface"] ErrBadType)
          ErrBadInterface
     || Is (Errorf "%#v %w %s" [OpValue (Val "int" (DInt 3));
                                 OpType "injector.iTrialInterface"] ErrBadType)
          ErrBadType
     || Is (Errorf "%#v %w %s" [OpValue (Val "int" (DInt 3));
                                 OpType "injector.iTrialInterface"] ErrBadType)
          ErrDuplicate) = true.
Proof.
  apply (AddInterface_error_inv (OfType "injector.iTrialInterface")
           (Dyn "int" (DInt 3)) withTrial).
  reflexivity.
Defined.

Lemma AddVivifier_duplicate_kept_witness :
  ∃ e, AddVivifier (Dyn "string" (DString "a string")) (Some "42")
         (withVivifier "string" "a string")
       = (Done (Some e), withVivifier "string" "a string")
    ∧ Is e ErrDuplicate = true.
Proof.
  apply (AddVivifier_duplicate_kept (Dyn "string" (DString "a string"))
           "string" "42" "a string" (withVivifier "string" "a string")).
  - apply files_value. left. vm_compute. discriminate.
  - reflexivity.
Defined.

Lemma AddVivifier_then_Get_witness :
  ∃ s1, AddVivifier (OfType "int") (Some "42") withInt = (Done None, s1)
    ∧ Objects (inj s1) = Objects (inj withInt)
    ∧ Fallback (inj s1) = Fallback (inj withInt)
    ∧ (∀ U, U ≠ "int" → specific (inj s1) U = specific (inj withInt) U)
    ∧ (∀ val, cached (inj withInt) "int" = Some val →
         Get "int" s1 = (Done (val, None), s1))
    ∧ (cached (inj withInt) "int" = None →
       trace (Get "int" s1).2 = trace s1 ++ [Vivified "42" "int"]).
Proof.
  apply (AddVivifier_then_Get (OfType "int") "int" "42" withInt);
    [apply files_Type | reflexivity].
Defined.

Lemma AddVivifier_error_inv_witness :
  start emptyInjector = start emptyInjector
  ∧ (((None : option vivifier) = None ∧ (ErrNil : error) = ErrNil)
     ∨ Is (ErrNil : error) ErrDuplicate = true).
Proof.
  apply (AddVivifier_error_inv (Dyn "string" (DString "a string")) None
           (start emptyInjector)).
  reflexivity.
Defined.

Lemma Get_done_inv_witness :
  cached (inj (vivified "42" 42 0)) "int" = Some (Val "int" (DInt 42))
  ∧ ((cached (inj (withVivifier "int" "42")) "int" = Some (Val "int" (DInt 42))
      ∧ vivified "42" 42 0 = withVivifier "int" "42")
     ∨ (cached (inj (withVivifier "int" "42")) "int" = None
        ∧ fits "int" (Val "int" (DInt 42)) = true
        ∧ ∃ viv w, selected (inj (withVivifier "int" "42")) "int" = Some viv
            ∧ vivified "42" 42 0
              = store "int" (Val "int" (DInt 42))
                  (after (Vivified viv "int") w (withVivifier "int" "42")))).
Proof.
  apply (Get_done_inv "int" (withVivifier "int" "42")).
  reflexivity.
Defined.

Lemma Get_error_inv_witness :
  ZeroValue = ZeroValue
  ∧ inj (after (rt:=runtime) (Vivified "12345" "string") 0%nat
           (withVivifier "string" "12345"))
    = inj (withVivifier "string" "12345")
  ∧ cached (inj (withVivifier "string" "12345")) "string" = None
  ∧ ((selected (inj (withVivifier "string" "12345")) "string" = None
      ∧ after (rt:=runtime) (Vivified "12345" "string") 0%nat
          (withVivifier "string" "12345")
        = withVivifier "string" "12345"
      ∧ Is (Errorf "%#v %w %s" [OpValue (Val "int" (DInt 12345)); OpType "string"]
              ErrBadType) ErrMissingValue = true)
     ∨ (∃ viv obj w,
          selected (inj (withVivifier "string" "12345")) "string" = Some viv
          ∧ after (rt:=runtime) (Vivified "12345" "string") 0%nat
              (withVivifier "string" "12345")
            = after (Vivified viv "string") w (withVivifier "string" "12345")
          ∧ (Vivify viv (inj (withVivifier "string" "12345")) "string"
               (world (withVivifier "string" "12345"))
             = (Done (obj, Some (Errorf "%#v %w %s"
                                   [OpValue (Val "int" (DInt 12345)); OpType "string"]
                                   ErrBadType)), w)
             ∨ (Vivify viv (inj (withVivifier "string" "12345")) "string"
                  (world (withVivifier "string" "12345"))
                = (Done (obj, None), w)
                ∧ Is (Errorf "%#v %w %s"
                        [OpValue (Val "int" (DInt 12345)); OpType "string"]
                        ErrBadType) ErrBadType = true)))).
Proof.
  apply (Get_error_inv "string" (withVivifier "string" "12345")).
  reflexivity.
Defined.

Lemma Get_failure_keeps_injector_witness :
  inj (Get "string" (withVivifier "string" "nil")).2
  = inj (withVivifier "string" "nil").
Proof.
  apply (Get_failure_keeps_injector "string" (withVivifier "string" "nil")).
  intros val. vm_compute. discriminate.
Defined.

Lemma slots_kept_witness :
  (∀ T, cached (inj (Get T withInt).2) "int" = Some five)
  ∧ (∀ meth, cached (inj (CallMethod meth withInt).2) "int" = Some five).
Proof. apply (slots_kept withInt "int" five). reflexivity. Defined.

Lemma withInt_wellTyped : wellTyped (inj withInt).
Proof.
  intros typ val. unfold cached. simpl.
  intros [[<- <-]|[_ Hno]]%lookup_insert_Some; [reflexivity|].
  by rewrite lookup_empty in Hno.
Qed.

Lemma wellTyped_kept_witness :
  (∀ obj, wellTyped (inj (Add obj withInt).2))
  ∧ (∀ ifc obj, wellTyped (inj (AddInterface ifc obj withInt).2))
  ∧ (∀ obj given, wellTyped (inj (AddVivifier obj given withInt).2))
  ∧ (∀ T, wellTyped (inj (Get T withInt).2))
  ∧ (∀ meth, wellTyped (inj (CallMethod meth withInt).2)).
Proof. apply (wellTyped_kept withInt). exact withInt_wellTyped. Defined.

Lemma CallMethod_rejects_witness :
  CallMethod five withInt = (Done (Some (ErrBadMethod : error)), withInt)
  ∧ CallMethod (Val "func(int, ...string)" (DFunc "Variadic")) withInt
    = (Done (Some (ErrBadMethod : error)), withInt)
  ∧ CallMethod (Val "func() (interface {}, error)" (DFunc "TwoReturn")) withInt
    = (Done (Some (ErrBadMethod : error)), withInt)
  ∧ CallMethod (Val "func() interface {}" (DFunc "NonError")) withInt
    = (Done (Some (ErrBadMethod : error)), withInt).
Proof.
  destruct (CallMethod_rejects withInt) as [_ Hbad].
  split; [|split; [|split]]; apply Hbad.
  - left. vm_compute. discriminate.
  - right. left. reflexivity.
  - right. right. left. vm_compute. lia.
  - right. right. right. split; reflexivity.
Defined.

Lemma CallMethod_again_witness :
  trace (CallMethod pair (CallMethod pair (withVivifier "int" "counter")).2).2
  = trace (CallMethod pair (withVivifier "int" "counter")).2
    ++ [Invoked pair [Val "int" (DInt 0); Val "int" (DInt 0)]]
  ∧ inj (CallMethod pair (CallMethod pair (withVivifier "int" "counter")).2).2
    = inj (CallMethod pair (withVivifier "int" "counter")).2.
Proof.
  apply (CallMethod_again "func(int, int)" (DFunc "Pair")
           (withVivifier "int" "counter")
           [Val "int" (DInt 0); Val "int" (DInt 0)] (vivified "counter" 0 1)).
  - split; [reflexivity | split; [reflexivity | left; reflexivity]].
  - apply (resolved_cons (withVivifier "int" "counter") "int" ["int"]
             (Val "int" (DInt 0)) [Val "int" (DInt 0)]
             (vivified "counter" 0 1) (vivified "counter" 0 1));
      [reflexivity|].
    apply (resolved_cons (vivified "counter" 0 1) "int" []
             (Val "int" (DInt 0)) []
             (vivified "counter" 0 1) (vivified "counter" 0 1));
      [reflexivity|].
    apply resolved_nil.
Defined.

Lemma Call_spec_witness :
  (∃ e, Call (Dyn "*injector.methods" DNilPointer) "NoMethod" (start emptyInjector)
        = (Done (Some e), start emptyInjector)
      ∧ Is e ErrNoMethod = true)
  ∧ Call (Dyn "*injector.methods" DNilPointer) "NiladicErr" (start emptyInjector)
    = CallMethod niladicErr (start emptyInjector).
Proof.
  split.
  - apply (proj2 (Call_spec (Dyn "*injector.methods" DNilPointer) "NoMethod"
                    (start emptyInjector)) "*injector.methods" DNilPointer);
      reflexivity.
  - apply (proj2 (Call_spec (Dyn "*injector.methods" DNilPointer) "NiladicErr"
                    (start emptyInjector)) "*injector.methods" DNilPointer);
      reflexivity.
Defined.

Lemma CallMethod_returns_witness :
  (CallMethod niladicErr (start emptyInjector)).2
  = after (rt:=runtime) (Invoked niladicErr []) 1%nat (start emptyInjector)
  ∧ (Done [RetError AnError] = Done [] →
     (CallMethod niladicErr (start emptyInjector)).1 = Done None)
  ∧ (∀ e rs, Done [RetError AnError] = Done (RetError e :: rs) →
       (CallMethod niladicErr (start emptyInjector)).1 = Done (Some e))
  ∧ (∀ msg, Done [RetError AnError] = Panicked msg →
       (CallMethod niladicErr (start emptyInjector)).1 = Panicked msg).
Proof.
  apply (CallMethod_returns "func() error" (DFunc "NiladicErr")
           (start emptyInjector) [] (start emptyInjector)).
  - split; [reflexivity | split; [reflexivity|]].
    right. exists "error". split; reflexivity.
  - apply resolved_nil.
  - reflexivity.
Defined.

End examples.
